(** * Rain- and flood-informed vehicle routing

    A shallow embedding of [rainfall_routing.py] and the verification of
    its specification.

    Conventions of the embedding.
    - Python [int] is [Z]; [%] and [//] by a positive constant are
      [Z.modulo] and [Z.div] (both round towards minus infinity, as in
      Python).
    - A finite Python [float] (coordinates, travel times, weights,
      distances) is the rational number [Q] it denotes, and an operation
      on floats is the exact operation followed by [float_round], the
      rounding of IEEE 754 binary64 to the nearest double, ties to even;
      infinities, NaN and the sign of zero are outside the model.
      [int(f)] is truncation towards zero.
    - A call that raises is a [Raise e]; a call that returns is an [Ok v].
    - A [dict] whose iteration order is irrelevant is a [gmap];
      [graph.edges], whose order decides which edge [find_edge_by_nodes]
      returns, is an association list in iteration order.
    - Libraries the script calls (networkx A-star, osmnx truncation, pyproj,
      geopy, the spreadsheet and the radar files) and the built-in [int]
      on strings are variables of the section [Routing]. *)

From Stdlib Require Import ZArith QArith Qround Qabs Lqa List String Ascii Permutation Lia.
From Stdlib Require Import DecimalString SpecFloat.
From stdpp Require Import base option list gmap strings.

Open Scope Z_scope.

(* ================================================================== *)
(** * Part I: the program *)
(* ================================================================== *)

(** ** Exceptions *)

Inductive exn : Type :=
  | TypeError | KeyError | IndexError | ValueError | ZeroDivisionError
  | NetworkXNoPath | NodeNotFound | ConnectionError.

Inductive result (A : Type) : Type :=
  | Ok (a : A)
  | Raise (e : exn).
Arguments Ok {A} a.
Arguments Raise {A} e.

Definition rbind {A B} (m : result A) (k : A -> result B) : result B :=
  match m with
  | Ok a => k a
  | Raise e => Raise e
  end.

Notation "'let!' x ':=' m 'in' k" := (rbind m (fun x => k))
  (at level 10, x pattern, m at level 100, k at level 200).

(** Inversion of a chain of binds that returned. *)
Ltac bind_inv H :=
  repeat match type of H with
    | rbind ?m _ = Ok _ =>
        let E := fresh "E" in
        destruct m eqn:E; cbn [rbind] in H; [|discriminate H]
    | (let (_, _) := ?p in _) = Ok _ => destruct p
    end.

(** [[f(a) for a in l]], left to right, stopping at the first exception. *)
Fixpoint rmap {A B} (f : A -> result B) (l : list A) : result (list B) :=
  match l with
  | [] => Ok []
  | a :: l' => let! b := f a in let! bs := rmap f l' in Ok (b :: bs)
  end.

(** [d[k]] on a dict: [KeyError] when the key is missing. *)
Definition getitem {A} (o : option A) : result A :=
  match o with
  | Some a => Ok a
  | None => Raise KeyError
  end.

Definition is_ok {A} (r : result A) : bool :=
  match r with
  | Ok _ => true
  | Raise _ => false
  end.

(** A run that ended by returning (not by raising, and not still
    looping when the fuel ran out). *)
Definition returned {A} (o : option (result A)) : bool :=
  match o with
  | Some (Ok _) => true
  | _ => false
  end.

(** [l[i]] on a list with a Python integer index: negative indices count
    from the end, anything out of range raises [IndexError]. *)
Definition list_getitem {A} (l : list A) (i : Z) : result A :=
  let n := Z.of_nat (length l) in
  let j := if i <? 0 then i + n else i in
  if (j <? 0) || (n <=? j) then Raise IndexError
  else match nth_error l (Z.to_nat j) with
       | Some a => Ok a
       | None => Raise IndexError
       end.

(** ** Floats *)

Definition Qltb (a b : Q) : bool := negb (Qle_bool b a).

(** The [k] with [2^k <= q < 2^(k+1)], for a positive [q]. *)
Definition Qlog2 (q : Q) : Z :=
  let k := Z.log2 (Qnum q) - Z.log2 (Zpos (Qden q)) in
  if Qle_bool (Qpower 2 k) q then k else k - 1.

(** The double nearest to [q], ties to even: 53 significant bits, the
    last being worth at least [2^-1074]. *)
Definition float_round (q : Q) : Q :=
  let q := Qred q in
  if Qeq_bool q 0 then 0%Q
  else
    let a := Qabs q in
    let e := Z.max (Qlog2 a - 52) (-1074) in
    let m := (a / Qpower 2 e)%Q in
    let f := Qfloor m in
    let n := match Qcompare (m - inject_Z f) (1 # 2) with
             | Lt => f
             | Gt => f + 1
             | Eq => if Z.even f then f else f + 1
             end in
    let v := Qred (inject_Z n * Qpower 2 e) in
    if Qltb q 0 then Qred (- v) else v.

(** [a + b], [a - b] and [a * b] on floats. *)
Definition fadd (a b : Q) : Q := float_round (a + b).
Definition fsub (a b : Q) : Q := float_round (a - b).
Definition fmul (a b : Q) : Q := float_round (a * b).

(** [a / b] on floats, for [b] other than zero. *)
Definition fdiv (a b : Q) : Q := float_round (a / b).

(** The rational a binary64 value of the Standard Library's
    specification of IEEE 754 denotes, and the double nearest to
    [n / d]. *)
Definition SF2Q (x : spec_float) : Q :=
  match x with
  | S754_finite s m e =>
      let v := (inject_Z (Zpos m) * Qpower 2 e)%Q in
      Qred (if s then - v else v)
  | _ => 0%Q
  end.

Definition binary64 (n d : Z) : spec_float :=
  SFdiv 53 1024 (binary_normalize 53 1024 n 0 false)
                (binary_normalize 53 1024 d 0 false).

(** Closed comparisons of rationals, by evaluation. *)
Ltac Qclosed := vm_compute; first [reflexivity | discriminate | intro; discriminate].

(** [int(f)]: truncation towards zero. *)
Definition py_int (q : Q) : Z := Z.quot (Qnum q) (Zpos (Qden q)).

(** [a / b] on floats: [ZeroDivisionError] when [b] is zero. *)
Definition py_div (a b : Q) : result Q :=
  if Qeq_bool b 0 then Raise ZeroDivisionError else Ok (fdiv a b).

(** [max(a, b)] and [min(a, b)]: the first argument wins a tie. *)
Definition py_max (a b : Q) : Q := if Qltb a b then b else a.
Definition py_min (a b : Q) : Q := if Qltb b a then b else a.

(** [max(l)] and [min(l)]: [ValueError] on the empty list. *)
Definition max_list (l : list Q) : result Q :=
  match l with
  | [] => Raise ValueError
  | a :: l' => Ok (fold_left py_max l' a)
  end.

Definition min_list (l : list Q) : result Q :=
  match l with
  | [] => Raise ValueError
  | a :: l' => Ok (fold_left py_min l' a)
  end.

Definition max_listZ (l : list Z) : result Z :=
  match l with
  | [] => Raise ValueError
  | a :: l' => Ok (fold_left Z.max l' a)
  end.

(** ** Format specifications [{:0wd}] *)

Definition digits (n : N) : string := NilZero.string_of_uint (N.to_uint n).

Fixpoint zeros (n : nat) : string :=
  match n with
  | O => EmptyString
  | S n' => String "0" (zeros n')
  end.

(** [f"{z:0{width}d}"]: sign first, then zeros up to [width] characters,
    then the decimal digits. *)
Definition format_d (width : nat) (z : Z) : string :=
  let ds := digits (Z.abs_N z) in
  let sign := if z <? 0 then "-"%string else EmptyString in
  let used := (String.length sign + String.length ds)%nat in
  (sign ++ zeros (width - used) ++ ds)%string.

(** ** class Agora *)

Record Agora : Type := mkAgora {
  year : Z; month : Z; day : Z; hour : Z; minute : Z; second : Z
}.

(** [Agora.__repr__]: ['YYYYMMDDHHMM']. *)
Definition repr (self : Agora) : string :=
  (format_d 4 (year self) ++ format_d 2 (month self) ++ format_d 2 (day self)
     ++ format_d 2 (hour self) ++ format_d 2 (minute self))%string.

(** [Agora.step]: the method mutates [self]; here it returns the new
    value of the object. *)
Definition step (self : Agora) (integer : Z) : Agora :=
  let total_seconds := second self + integer in
  let second' := total_seconds mod 60 in
  let total_minutes := (total_seconds - second') / 60 + minute self in
  let minute' := total_minutes mod 60 in
  let total_hours := (total_minutes - minute') / 60 + hour self in
  let hour' := total_hours mod 24 in
  {| year := year self; month := month self;
     day := day self + (total_hours - hour') / 24;
     hour := hour'; minute := minute'; second := second' |}.

(** The data-model invariant of a timestamp: the time of day is in
    range. *)
Definition normalized (t : Agora) : Prop :=
  0 <= second t < 60 /\ 0 <= minute t < 60 /\ 0 <= hour t < 24.

(** Seconds elapsed since day 0, 00:00:00 of the timestamp's month. *)
Definition seconds_of (t : Agora) : Z :=
  second t + 60 * (minute t + 60 * (hour t + 24 * day t)).

(** A row of the flood spreadsheet; the columns the script reads. *)
Record FloodRow : Type := mkFloodRow {
  DATE : string; START_T : string; END_T : string; X : Q; Y : Q
}.

(** ** The road network: a networkx [MultiDiGraph] *)

Definition node : Type := Z.

(** An edge is the tuple [(u, v, key)] that iterating [graph.edges]
    yields. *)
Definition edge : Type := node * node * Z.

(** Node attributes: ['x'] is the longitude, ['y'] the latitude. *)
Record NodeData : Type := mkNodeData { attr_x : Q; attr_y : Q }.

(** Edge attributes the script reads or writes: ['travel_time'] (set on
    every edge by [Grafo.__init__]), the optional ['geometry'] (its
    [coords], as [(lon, lat)] pairs) and the optional ['weight']. *)
Record EdgeData : Type := mkEdgeData {
  attr_travel_time : Q;
  attr_geometry : option (list (Q * Q));
  attr_weight : option Q
}.

Record MultiDiGraph : Type := mkGraph {
  nodes : gmap node NodeData;
  edges : list (edge * EdgeData)
}.

(** Iterating [graph.edges]. *)
Definition edge_keys (g : MultiDiGraph) : list edge := map fst (edges g).

Fixpoint assoc (l : list (edge * EdgeData)) (e : edge) : option EdgeData :=
  match l with
  | [] => None
  | (k, d) :: l' => if decide (k = e) then Some d else assoc l' e
  end.

(** [graph.edges[e]] and [graph.nodes[n]]. *)
Definition edge_data (g : MultiDiGraph) (e : edge) : result EdgeData :=
  getitem (assoc (edges g) e).

Definition node_data (g : MultiDiGraph) (n : node) : result NodeData :=
  getitem (nodes g !! n).

(** ** class Grafo *)

Record Grafo : Type := mkGrafo {
  lat0 : Q; latoo : Q; lon0 : Q; lonoo : Q;
  graph : MultiDiGraph
}.

(** [Grafo.find_edge_by_nodes]; the diagnostic it prints is not
    modelled. *)
Definition find_edge_by_nodes (self : Grafo) (node1 node2 : node) : option edge :=
  let e1 := List.filter (fun e : edge => (e.1.1 =? node1) && (e.1.2 =? node2))
                        (edge_keys (graph self)) in
  let e2 := List.filter (fun e : edge => (e.1.1 =? node2) && (e.1.2 =? node1))
                        (edge_keys (graph self)) in
  match e1 ++ e2 with
  | [] => None
  | e :: _ => Some e
  end.

(** ** oracle *)

(** The [while] loop of [oracle].  Each iteration increases [n], so the
    loop body runs fewer than [len(path)] times; [fuel] bounds the
    iterations and [oracle] supplies [len(path)], which the loop never
    exhausts (lemma [oracle_loop_walk]).  [grafo.graph.edges[e]] with
    [e = None] raises [TypeError]. *)
Fixpoint oracle_loop (fuel : nat) (grafo : Grafo) (path : list node)
    (tyme : Q) (n : nat) (next_node : node) (crossed_edges : list edge)
    : result (node * list edge) :=
  match fuel with
  | O => Ok (next_node, crossed_edges)
  | S fuel' =>
      if Qltb 0 tyme && (n <? length path - 1)%nat then
        match path !! n, path !! (n + 1)%nat with
        | Some current_node, Some next_node =>
            match find_edge_by_nodes grafo current_node next_node with
            | None => Raise TypeError
            | Some e =>
                let! d := edge_data (graph grafo) e in
                oracle_loop fuel' grafo path (fsub tyme (attr_travel_time d))
                            (n + 1)%nat next_node (crossed_edges ++ [e])
            end
        | _, _ => Raise IndexError
        end
      else Ok (next_node, crossed_edges)
  end.

Definition oracle (grafo : Grafo) (path : list node) (initial_point : node)
    (tyme : Q) : result (node * list edge) :=
  let initial_indices :=
    List.filter (fun i => bool_decide (path !! i = Some initial_point))
                (seq 0 (length path)) in
  match initial_indices with
  | [] => Ok (initial_point, [])
  | n :: _ => oracle_loop (length path) grafo path tyme n initial_point []
  end.

(** *** Vocabulary for the oracle's specification *)

(** [k] is the index the oracle starts from: the first position of
    [initial_point] in [path]. *)
Definition first_index (path : list node) (initial_point : node) (k : nat) : Prop :=
  path !! k = Some initial_point /\
  forall j, (j < k)%nat -> path !! j <> Some initial_point.

(** Every consecutive pair of [current :: rest] is linked by an edge. *)
Fixpoint linked (grafo : Grafo) (current : node) (rest : list node) : Prop :=
  match rest with
  | [] => True
  | next :: rest' =>
      is_Some (find_edge_by_nodes grafo current next) /\ linked grafo next rest'
  end.

(** The edges [find_edge_by_nodes] resolves along [current :: rest], in
    path order. *)
Fixpoint route_edges (grafo : Grafo) (current : node) (rest : list node) : list edge :=
  match rest with
  | [] => []
  | next :: rest' =>
      match find_edge_by_nodes grafo current next with
      | Some e => e :: route_edges grafo next rest'
      | None => []
      end
  end.

Definition travel_time (grafo : Grafo) (e : edge) : Q :=
  match assoc (edges (graph grafo)) e with
  | Some d => attr_travel_time d
  | None => 0%Q
  end.

Definition Qsum (l : list Q) : Q := fold_right Qplus 0%Q l.

(** How many edges a budget [tyme] crosses when the successive travel times
    are [ts]: the budget is tested before each edge, never after. *)
Fixpoint steps (tyme : Q) (ts : list Q) : nat :=
  match ts with
  | [] => O
  | t :: ts' => if Qltb 0 tyme then S (steps (fsub tyme t) ts') else O
  end.

(** The budget the loop of [oracle] has left after the travel times [ts]:
    [tyme -= t] for each, in order. *)
Definition budget_left (tyme : Q) (ts : list Q) : Q := fold_left fsub ts tyme.

(** The loop of [oracle] as a recursion on the nodes still ahead. *)
Fixpoint walk (grafo : Grafo) (tyme : Q) (current : node) (rest : list node)
    (crossed : list edge) : result (node * list edge) :=
  match rest with
  | [] => Ok (current, crossed)
  | next :: rest' =>
      if Qltb 0 tyme then
        match find_edge_by_nodes grafo current next with
        | None => Raise TypeError
        | Some e =>
            let! d := edge_data (graph grafo) e in
            walk grafo (fsub tyme (attr_travel_time d)) next rest' (crossed ++ [e])
        end
      else Ok (current, crossed)
  end.

(** *** Example networks *)

Definition nd (lon lat : Q) : NodeData := mkNodeData lon lat.
Definition ed (t : Q) : EdgeData := mkEdgeData t None None.

(** A -> B -> C with travel times 300 s and 400 s (A = 1, B = 2, C = 3);
    the three nodes are not in line. *)
Definition abc_graph : MultiDiGraph :=
  mkGraph (list_to_map [(1, nd (1 # 2) (1 # 2)); (2, nd (3 # 2) (3 # 2));
                        (3, nd (5 # 2) (1 # 2))])
          [((1, 2, 0), ed 300); ((2, 3, 0), ed 400)].
Definition abc : Grafo := mkGrafo 0 10 0 10 abc_graph.

(** The same three nodes, the second edge with travel time 0. *)
Definition abc_zero : Grafo :=
  mkGrafo 0 10 0 10
    (mkGraph (list_to_map [(1, nd (1 # 2) (1 # 2)); (2, nd (3 # 2) (3 # 2));
                           (3, nd (5 # 2) (1 # 2))])
             [((1, 2, 0), ed 300); ((2, 3, 0), ed 0)]).

(** Four nodes in a row; the travel times are the floats 0.1 and 599.9
    and 2^-50. *)
Definition tenths : Grafo :=
  mkGrafo 0 10 0 10
    (mkGraph (list_to_map [(1, nd 1 1); (2, nd 2 2); (3, nd 3 1); (4, nd 4 2)])
             [((1, 2, 0), ed (float_round (1 # 10)));
              ((2, 3, 0), ed (float_round (5999 # 10)));
              ((3, 4, 0), ed (1 # 1125899906842624))]).

(** Two nodes and no edge between them. *)
Definition unlinked : Grafo :=
  mkGrafo 0 10 0 10
    (mkGraph (list_to_map [(1, nd 0 0); (2, nd 1 0)]) []).

(** The full-path property as the specification words it: with a budget
    that covers the travel time of the remaining path, the oracle returns
    the last node with [len(path) - 1] edges crossed. *)
Definition full_path_as_specified (grafo : Grafo) (path : list node)
    (initial_point : node) (tyme : Q) : Prop :=
  forall k,
    first_index path initial_point k ->
    (Qsum (map (travel_time grafo)
               (route_edges grafo initial_point (drop (S k) path))) <= tyme)%Q ->
    exists reached crossed,
      oracle grafo path initial_point tyme = Ok (reached, crossed)
      /\ last path = Some reached
      /\ length crossed = (length path - 1)%nat.

(** ** class Radar (data) *)

Record Radar : Type := mkRadar {
  radar_lat0 : Q; radar_lon0 : Q; dlat : Q; dlon : Q
}.

(** The attribute [nx.astar_path] minimises. *)
Inductive weight_key : Type := by_travel_time | by_weight.

Section Routing.

Set Default Proof Using "Type".
Set Proof Using Clear Unused.

(** ** What the script imports *)

(** [pyproj]: the transformer from UTM 23S to EPSG 4326. *)
Variable convert_coordinates : Q -> Q -> Q * Q.

(** [geopy]: [distance.great_circle(p, q).meters], for points that are
    geographic coordinates (geopy raises on a latitude beyond 90
    degrees). *)
Variable great_circle_meters : Q * Q -> Q * Q -> Q.

(** [pd.read_excel(url)]: the rows of the flood spreadsheet, in order. *)
Variable flood_df : list FloodRow.

(** The radar file of a rendered timestamp, from the local cache or
    downloaded: [Ok (Some data)] with the lines of the file, each as the
    tokens [line.split()] gives; [Ok None] when the server has no such
    file; [Raise] when reading or downloading raises an exception that
    [rain_by_time] does not catch.  The file is the same for every call
    of a run. *)
Variable radar_file : string -> result (option (list (list string))).

(** [int(entry)] on a token: [ValueError] when it is not a numeral. *)
Variable int_of_str : string -> result Z.

(** [nx.astar_path(graph, source, target, weight=...)]. *)
Variable astar_path : MultiDiGraph -> node -> node -> weight_key -> result (list node).

(** [ox.truncate.truncate_graph_bbox(graph, north, south, east, west)]. *)
Variable truncate_graph_bbox : MultiDiGraph -> Q -> Q -> Q -> Q -> result MultiDiGraph.

(** ** Agora.get_flooding_points *)

Definition date_of (self : Agora) : string :=
  (format_d 4 (year self) ++ "-" ++ format_d 2 (month self) ++ "-"
     ++ format_d 2 (day self))%string.

Definition time_of (self : Agora) : string :=
  (format_d 2 (hour self) ++ ":" ++ format_d 2 (minute self) ++ ":"
     ++ format_d 2 (second self))%string.

(** The row filter: [DATE == date], [START_T < start_time] and
    [END_T > start_time], all three on strings. *)
Definition flood_row_selected (date start_time : string) (r : FloodRow) : bool :=
  String.eqb (DATE r) date
  && String.ltb (START_T r) start_time
  && String.ltb start_time (END_T r).

Definition get_flooding_points (self : Agora) : list (Q * Q) :=
  let date := date_of self in
  let start_time := time_of self in
  let my_floods := List.filter (flood_row_selected date start_time) flood_df in
  map (fun r => convert_coordinates (X r) (Y r)) my_floods.

(** The filter as the specification words it: the interval is closed at
    [START_T]. *)
Definition flood_row_as_specified (date start_time : string) (r : FloodRow) : bool :=
  String.eqb (DATE r) date
  && String.leb (START_T r) start_time
  && String.ltb start_time (END_T r).

Definition flooding_points_as_specified (self : Agora) : list (Q * Q) :=
  map (fun r => convert_coordinates (X r) (Y r))
      (List.filter (flood_row_as_specified (date_of self) (time_of self)) flood_df).

(** ** Sampling an edge *)

Definition coords_of (d : EdgeData) : list (Q * Q) :=
  match attr_geometry d with
  | Some coords => coords
  | None => []
  end.

(** The [(lon, lat)] samples of an edge: the vertices of its geometry, if
    it has one, then its two end nodes.  [Radar.rain_at_edge] and
    [is_flooded] both start with these statements. *)
Definition edge_lonlats (g : MultiDiGraph) (e : edge) : result (list (Q * Q)) :=
  let! d := edge_data g e in
  let lonlats := coords_of d in
  let! initial := node_data g e.1.1 in
  let lonlats := lonlats ++ [(attr_x initial, attr_y initial)] in
  let! final := node_data g e.1.2 in
  Ok (lonlats ++ [(attr_x final, attr_y final)]).

(** ** is_flooded *)

(** The inner [for q in flooded_points] with its [break]. *)
Fixpoint flooded_scan (p : Q * Q) (flooded_points : list (Q * Q)) (tf : bool) : bool :=
  match flooded_points with
  | [] => tf
  | q :: rest =>
      if Qltb (great_circle_meters p q) 200 then true
      else flooded_scan p rest tf
  end.

Definition is_flooded (g : MultiDiGraph) (e : edge) (flooded_points : list (Q * Q))
    : result bool :=
  let! lonlats := edge_lonlats g e in
  let latlons := map (fun xy : Q * Q => (xy.2, xy.1)) lonlats in
  Ok (fold_left (fun tf p => flooded_scan p flooded_points tf) latlons false).

(** ** Radar.rain_by_time and Radar.rain_at_edge *)

(** [0 if entry == "-99" else int(entry)]. *)
Definition entry_value (entry : string) : result Z :=
  if String.eqb entry "-99" then Ok 0 else int_of_str entry.

(** [A] is [None] when there is no file or the file has no line. *)
Definition rain_by_time (self : Radar) (agora : Agora)
    : result (option (list (list Z))) :=
  let! data := radar_file (repr agora) in
  match data with
  | None => Ok None
  | Some [] => Ok None
  | Some data => let! A := rmap (rmap entry_value) data in Ok (Some A)
  end.

(** [(int((lat - lat0) / dlat), int((lon - lon0) / dlon))]. *)
Definition rowcol (self : Radar) (lonlat : Q * Q) : result (Z * Z) :=
  let lon := lonlat.1 in
  let lat := lonlat.2 in
  let! r := py_div (fsub lat (radar_lat0 self)) (dlat self) in
  let! c := py_div (fsub lon (radar_lon0 self)) (dlon self) in
  Ok (py_int r, py_int c).

(** [matrix[row][col]]; subscripting [None] raises [TypeError]. *)
Definition matrix_at (matrix : option (list (list Z))) (rc : Z * Z) : result Z :=
  match matrix with
  | None => Raise TypeError
  | Some m => let! line := list_getitem m rc.1 in list_getitem line rc.2
  end.

Definition rain_at_edge (self : Radar) (g : MultiDiGraph) (e : edge) (agora : Agora)
    : result Z :=
  let! lonlats := edge_lonlats g e in
  let! rowcols := rmap (rowcol self) lonlats in
  let! matrix := rain_by_time self agora in
  let! rainfall := rmap (matrix_at matrix) rowcols in
  max_listZ rainfall.

(** Per-edge rainfall as the specification words it: the samples are the
    vertices of the geometry or, without a geometry, the two end nodes,
    and the cell is the floor of the quotient. *)
Definition samples_as_specified (g : MultiDiGraph) (e : edge) : result (list (Q * Q)) :=
  let! d := edge_data g e in
  match attr_geometry d with
  | Some coords => Ok coords
  | None =>
      let! initial := node_data g e.1.1 in
      let! final := node_data g e.1.2 in
      Ok [(attr_x initial, attr_y initial); (attr_x final, attr_y final)]
  end.

Definition rowcol_as_specified (self : Radar) (lonlat : Q * Q) : result (Z * Z) :=
  let! r := py_div (fsub lonlat.2 (radar_lat0 self)) (dlat self) in
  let! c := py_div (fsub lonlat.1 (radar_lon0 self)) (dlon self) in
  Ok (Qfloor r, Qfloor c).

Definition rain_at_edge_as_specified (self : Radar) (g : MultiDiGraph) (e : edge)
    (agora : Agora) : result Z :=
  let! lonlats := samples_as_specified g e in
  let! rowcols := rmap (rowcol_as_specified self) lonlats in
  let! matrix := rain_by_time self agora in
  let! rainfall := rmap (matrix_at matrix) rowcols in
  max_listZ rainfall.

(** ** Grafo.crop *)

Definition with_graph (self : Grafo) (g : MultiDiGraph) : Grafo :=
  mkGrafo (lat0 self) (latoo self) (lon0 self) (lonoo self) g.

(** [Grafo.crop] assigns [self.graph]; here it returns the new value of
    [self]. *)
Definition crop (self : Grafo) (initial_point final_point : node) : result Grafo :=
  let! gmaps_path := astar_path (graph self) initial_point final_point by_travel_time in
  let! lats := rmap (fun n => let! d := node_data (graph self) n in Ok (attr_y d))
                    gmaps_path in
  let! lons := rmap (fun n => let! d := node_data (graph self) n in Ok (attr_x d))
                    gmaps_path in
  let! lat_min := min_list lats in
  let! lat_max := max_list lats in
  let! lon_min := min_list lons in
  let! lon_max := max_list lons in
  let bbox_lat_min := py_max (lat0 self) (fsub lat_min (fsub lat_max lat_min)) in
  let bbox_lat_max := py_min (latoo self) (fadd lat_max (fsub lat_max lat_min)) in
  let bbox_lon_min := py_max (lon0 self) (fsub lon_min (fsub lon_max lon_min)) in
  let bbox_lon_max := py_min (lonoo self) (fadd lon_max (fsub lon_max lon_min)) in
  let! g := truncate_graph_bbox (graph self)
              bbox_lat_max bbox_lat_min bbox_lon_max bbox_lon_min in
  Ok (with_graph self g).

(** [g'] is [g] with some nodes and edges removed. *)
Definition subgraph (g' g : MultiDiGraph) : Prop :=
  nodes g' ⊆ nodes g /\ incl (edges g') (edges g).

(** ** The store *)

(** [Experiment.experiment] works on objects that other references reach:
    the clock, the road network and its graph.  Objects live in a store,
    one list per class, and a reference is an index. *)
Definition loc : Type := nat.

Record GrafoObj : Type := mkGrafoObj {
  o_lat0 : Q; o_latoo : Q; o_lon0 : Q; o_lonoo : Q;
  o_graph : loc
}.

Record Experiment : Type := mkExperiment {
  origin : node;
  destination : node;
  agora : loc;
  grafo : loc;
  radar : Radar
}.

Record Heap : Type := mkHeap {
  agoras : list Agora;
  graphs : list MultiDiGraph;
  grafos : list GrafoObj;
  experiments : list Experiment
}.

Definition set_agoras (h : Heap) (v : list Agora) : Heap :=
  mkHeap v (graphs h) (grafos h) (experiments h).
Definition set_graphs (h : Heap) (v : list MultiDiGraph) : Heap :=
  mkHeap (agoras h) v (grafos h) (experiments h).
Definition set_grafos (h : Heap) (v : list GrafoObj) : Heap :=
  mkHeap (agoras h) (graphs h) v (experiments h).

Definition load {A} (store : list A) (r : loc) : result A := getitem (store !! r).

(** The value of a [Grafo] object: its bounds and the graph it refers
    to. *)
Definition load_grafo (h : Heap) (r : loc) : result Grafo :=
  let! o := load (grafos h) r in
  let! g := load (graphs h) (o_graph o) in
  Ok (mkGrafo (o_lat0 o) (o_latoo o) (o_lon0 o) (o_lonoo o) g).

(** [self.grafo.crop(u, v)] on the store: the truncated graph is a new
    object, [self.graph] is set to it, and it is returned. *)
Definition crop_in_place (self : loc) (u v : node) (h : Heap) : result (loc * Heap) :=
  let! o := load (grafos h) self in
  let! gr := load_grafo h self in
  let! gr' := crop gr u v in
  let r := length (graphs h) in
  let h1 := set_graphs h (graphs h ++ [graph gr']) in
  let o' := mkGrafoObj (o_lat0 o) (o_latoo o) (o_lon0 o) (o_lonoo o) r in
  Ok (r, set_grafos h1 (<[self := o']> (grafos h1))).

(** ** class Experiment *)

(** A dict built by inserting the pairs in order. *)
Definition dict_of {V} (l : list (edge * V)) : gmap edge V :=
  fold_left (fun m kv => <[kv.1 := kv.2]> m) l ∅.

(** [nx.set_edge_attributes(graph, weights, 'weight')]. *)
Definition set_edge_attributes (g : MultiDiGraph) (weights : gmap edge Q) : MultiDiGraph :=
  mkGraph (nodes g)
    (map (fun kd : edge * EdgeData =>
            match weights !! kd.1 with
            | Some w => (kd.1, mkEdgeData (attr_travel_time kd.2) (attr_geometry kd.2) (Some w))
            | None => kd
            end)
         (edges g)).

(** Truth value of the matrix. *)
Definition truthy {A} (m : option (list A)) : bool :=
  match m with
  | Some (_ :: _) => true
  | _ => false
  end.

(** The type of the [weight] argument of [Experiment.experiment]. *)
Definition weight_fn : Type :=
  MultiDiGraph -> edge -> list (Q * Q) -> gmap edge Z -> Q.

(** The update at the head of the loop body: rainfall by edge and, when
    there is a matrix, the new weights written into the graph object.
    The second call [A = self.radar.rain_by_time(time)] reads the same
    file again and its result is not used. *)
Definition planning (rdr : Radar) (weight : weight_fn) (graph_ref : loc)
    (time : Agora) (flooding_points : list (Q * Q)) (h : Heap)
    : result (gmap edge Z * Heap) :=
  let! g := load (graphs h) graph_ref in
  let! matrix := rain_by_time rdr time in
  if truthy matrix then
    let! rains := rmap (fun e => let! v := rain_at_edge rdr g e time in Ok (e, v))
                       (edge_keys g) in
    let rains := dict_of rains in
    let weights := dict_of (map (fun e => (e, weight g e flooding_points rains))
                                (edge_keys g)) in
    Ok (rains, set_graphs h (<[graph_ref := set_edge_attributes g weights]> (graphs h)))
  else
    Ok (dict_of (map (fun e => (e, 0)) (edge_keys g)), h).

(** [for e in subpath: edge_rains[e] = rains[e]]. *)
Fixpoint record_rains (rains : gmap edge Z) (subpath : list edge)
    (edge_rains : gmap edge Z) : result (gmap edge Z) :=
  match subpath with
  | [] => Ok edge_rains
  | e :: rest =>
      let! v := getitem (rains !! e) in
      record_rains rains rest (<[e := v]> edge_rains)
  end.

(** One pass through the body of the main loop.  [time] and [graph_ref]
    are the references held by the local variables [time] and [graph]. *)
Definition iteration (weight : weight_fn) (self : Experiment) (time graph_ref : loc)
    (start : node) (edge_rains : gmap edge Z) (h : Heap)
    : result (node * gmap edge Z * Heap) :=
  let! now := load (agoras h) time in
  let flooding_points := get_flooding_points now in
  let! (rains, h1) := planning (radar self) weight graph_ref now flooding_points h in
  let! g := load (graphs h1) graph_ref in
  let! shortest_path := astar_path g start (destination self) by_weight in
  let h2 := set_agoras h1 (<[time := step now 600]> (agoras h1)) in
  let! first := list_getitem shortest_path 0 in
  let! gr := load_grafo h2 (grafo self) in
  let! (start', subpath) := oracle gr shortest_path first 600 in
  let! edge_rains' := record_rains rains subpath edge_rains in
  Ok (start', edge_rains', h2).

(** The main loop; [None] when [fuel] passes do not reach the
    destination. *)
Fixpoint experiment_loop (fuel : nat) (weight : weight_fn) (self : loc)
    (time graph_ref : loc) (start : node) (edge_rains : gmap edge Z) (h : Heap)
    : option (result (gmap edge Z * Heap)) :=
  match fuel with
  | O => None
  | S fuel' =>
      match load (experiments h) self with
      | Raise e => Some (Raise e)
      | Ok ex =>
          if start =? destination ex then Some (Ok (edge_rains, h))
          else
            match iteration weight ex time graph_ref start edge_rains h with
            | Raise e => Some (Raise e)
            | Ok (start', edge_rains', h') =>
                experiment_loop fuel' weight self time graph_ref start' edge_rains' h'
            end
      end
  end.

(** [Experiment.experiment]: [copy.deepcopy(self.origin)] is the same
    integer, [copy.deepcopy(self.agora)] is a new [Agora] object. *)
Definition experiment (fuel : nat) (weight : weight_fn) (self : loc) (h : Heap)
    : option (result (gmap edge Z * Heap)) :=
  match load (experiments h) self with
  | Raise e => Some (Raise e)
  | Ok ex =>
      let start := origin ex in
      match load (agoras h) (agora ex) with
      | Raise e => Some (Raise e)
      | Ok a =>
          let time := length (agoras h) in
          let h1 := set_agoras h (agoras h ++ [a]) in
          match crop_in_place (grafo ex) (origin ex) (destination ex) h1 with
          | Raise e => Some (Raise e)
          | Ok (graph_ref, h2) =>
              experiment_loop fuel weight self time graph_ref start ∅ h2
          end
      end
  end.

(** *** Vocabulary for the effect of a run *)



(** Two graphs with the same nodes and the same edges, travel times and
    geometries; only the weights may differ. *)
Definition unweighted (kd : edge * EdgeData) : edge * Q * option (list (Q * Q)) :=
  (kd.1, attr_travel_time kd.2, attr_geometry kd.2).

Definition same_network (g g' : MultiDiGraph) : Prop :=
  nodes g = nodes g' /\ map unweighted (edges g) = map unweighted (edges g').

(** What a run may change in the store between two of its states: only
    the clock object [time] and the weights of the graph object
    [graph_ref]. *)
Definition run_frame (time graph_ref : loc) (h h' : Heap) : Prop :=
  experiments h' = experiments h
  /\ grafos h' = grafos h
  /\ (forall r, r <> time -> agoras h' !! r = agoras h !! r)
  /\ (forall r, r <> graph_ref -> graphs h' !! r = graphs h !! r)
  /\ (forall g, graphs h !! graph_ref = Some g ->
        exists g', graphs h' !! graph_ref = Some g' /\ same_network g' g).

(** The crop from [self] to [self'] keeps the path it was derived from:
    every node of the path, with its coordinates, and every edge of the
    graph between two nodes of the path. *)
Definition keeps_path (self self' : Grafo) (u v : node) : Prop :=
  exists gmaps_path,
    astar_path (graph self) u v by_travel_time = Ok gmaps_path
    /\ (forall n, In n gmaps_path ->
          exists d, nodes (graph self) !! n = Some d
                    /\ nodes (graph self') !! n = Some d)
    /\ (forall ed : edge * EdgeData,
          In ed (edges (graph self)) ->
          In ed.1.1.1 gmaps_path -> In ed.1.1.2 gmaps_path ->
          In ed (edges (graph self'))).

(** *** Vocabulary for the flood filter *)

(** The rendering ["HH:MM:SS"] of a time of day, as [time_of] builds it. *)
Definition time_string (h m s : Z) : string :=
  (format_d 2 h ++ ":" ++ format_d 2 m ++ ":" ++ format_d 2 s)%string.

Definition seconds_of_day (h m s : Z) : Z := s + 60 * (m + 60 * h).

Definition time_of_day (h m s : Z) : Prop :=
  0 <= h < 24 /\ 0 <= m < 60 /\ 0 <= s < 60.

Definition below_100 : list Z := map Z.of_nat (seq 0 100).

Definition comparison_eqb (c1 c2 : comparison) : bool :=
  match c1, c2 with
  | Eq, Eq | Lt, Lt | Gt, Gt => true
  | _, _ => false
  end.

(** ** Stand-ins for the imported libraries, and example data *)

(** None of the definitions below uses a variable of the section; they
    give the theorems concrete networks, files and stores to run on. *)

Definition swap_convert (x y : Q) : Q * Q := (y, x).

(** A pair of coordinates. *)
Definition pt (a b : Q) : Q * Q := (a, b).

(** A stand-in for the great-circle distance: 100 km per degree along
    each axis. *)
Definition grid_meters (p q : Q * Q) : Q :=
  ((Qabs (p.1 - q.1) + Qabs (p.2 - q.2)) * 100000)%Q.

Definition flood_rows : list FloodRow :=
  [ mkFloodRow "2019-03-10" "10:00:00" "11:00:00" 1 2;
    mkFloodRow "2019-03-10" "09:15:00" "10:30:00" 3 4;
    mkFloodRow "2019-03-11" "09:15:00" "10:30:00" 5 6 ].

(** One radar file, for 2019-03-10 10:00; no file for any other time but
    11:00 of that day, when the download fails. *)
Definition one_radar_file (key : string) : result (option (list (list string))) :=
  if String.eqb key "201903101000" then
    Ok (Some [["0"; "7"; "2"]; ["-99"; "3"; "1"]]%string)
  else if String.eqb key "201903101100" then Raise ConnectionError
  else Ok None.

(** The number a string of decimal digits denotes. *)
Fixpoint digits_value (s : string) (acc : Z) : Z :=
  match s with
  | EmptyString => acc
  | String c s' => digits_value s' (10 * acc + (Z.of_nat (nat_of_ascii c) - 48))
  end.

Fixpoint all_digits (s : string) : bool :=
  match s with
  | EmptyString => true
  | String c s' =>
      (48 <=? nat_of_ascii c)%nat && (nat_of_ascii c <=? 57)%nat && all_digits s'
  end.

(** A stand-in for [int] on a token: decimal digits, with or without a
    minus sign before them. *)
Definition decimal (s : string) : result Z :=
  match s with
  | EmptyString => Raise ValueError
  | String "-" (String c r) =>
      if all_digits (String c r) then Ok (- digits_value (String c r) 0)
      else Raise ValueError
  | _ => if all_digits s then Ok (digits_value s 0) else Raise ValueError
  end.

(** Paths of a network whose node [n] is linked to node [n + 1]. *)
Definition line_astar (g : MultiDiGraph) (s t : node) (w : weight_key)
    : result (list node) :=
  match nodes g !! s, nodes g !! t with
  | Some _, Some _ =>
      if s <=? t then Ok (map Z.of_nat (seq (Z.to_nat s) (Z.to_nat (t - s + 1))))
      else Raise NetworkXNoPath
  | _, _ => Raise NodeNotFound
  end.

Definition inside_box (north south east west : Q) (d : NodeData) : bool :=
  Qle_bool south (attr_y d) && Qle_bool (attr_y d) north
  && Qle_bool west (attr_x d) && Qle_bool (attr_x d) east.

(** A stand-in for the truncation as osmnx does it by default: of the
    nodes inside the box and the edges between them, without the nodes
    left with no edge, it keeps the largest weakly connected component
    (the first of the largest, should there be several), and it raises
    when the box has no area or nothing is left. *)
Definition neighbours (es : list edge) (n : node) : list node :=
  flat_map (fun e : edge =>
              (if e.1.1 =? n then [e.1.2] else [])
              ++ (if e.1.2 =? n then [e.1.1] else [])) es.

Definition add_new (seen new : list node) : list node :=
  fold_left (fun acc n => if existsb (Z.eqb n) acc then acc else acc ++ [n])
            new seen.

Fixpoint reach (fuel : nat) (es : list edge) (seen : list node) : list node :=
  match fuel with
  | O => seen
  | S fuel' => reach fuel' es (add_new seen (flat_map (neighbours es) seen))
  end.

Definition largest (components : list (list node)) : list node :=
  fold_left (fun best c => if (length best <? length c)%nat then c else best)
            components [].

Definition osmnx_truncate (g : MultiDiGraph) (north south east west : Q)
    : result MultiDiGraph :=
  if Qle_bool north south || Qle_bool east west then Raise ValueError
  else
    let inside := filter (fun kd : node * NodeData =>
                            inside_box north south east west kd.2 = true)
                         (nodes g) in
    let es := List.filter (fun ed : edge * EdgeData =>
                             bool_decide (is_Some (inside !! ed.1.1.1))
                             && bool_decide (is_Some (inside !! ed.1.1.2)))
                          (edges g) in
    let keys := map fst es in
    let ns := List.filter (fun n => match neighbours keys n with
                                    | [] => false
                                    | _ => true
                                    end)
                          (map fst (map_to_list inside)) in
    match largest (map (fun n => reach (length ns) keys [n]) ns) with
    | [] => Raise ValueError
    | best =>
        Ok (mkGraph (filter (fun kd : node * NodeData => kd.1 ∈ best) inside)
                    (List.filter (fun ed : edge * EdgeData =>
                                    existsb (Z.eqb ed.1.1.1) best) es))
    end.

(** A -> B -> C as in [abc] and a far node D linked to C. *)
Definition abcd : Grafo :=
  mkGrafo 0 10 0 10
    (mkGraph (list_to_map [(1, nd (1 # 2) (1 # 2)); (2, nd (3 # 2) (3 # 2));
                           (3, nd (5 # 2) (1 # 2)); (4, nd 9 9)])
             [((1, 2, 0), ed 300); ((2, 3, 0), ed 400); ((3, 4, 0), ed 900)]).

(** A street from 1 to 2 and, close by, the streets from 3 to 4 and from
    4 to 5; the two groups are linked by way of the far node 6. *)
Definition islands_graph : MultiDiGraph :=
  mkGraph (list_to_map [(1, nd 4 4); (2, nd 5 5); (3, nd (7 # 2) (11 # 2));
                        (4, nd (9 # 2) (11 # 2)); (5, nd (11 # 2) (7 # 2));
                        (6, nd 8 8)])
          [((1, 2, 0), ed 60); ((2, 6, 0), ed 600); ((6, 3, 0), ed 600);
           ((3, 4, 0), ed 60); ((4, 5, 0), ed 60)].
Definition islands : Grafo := mkGrafo 0 10 0 10 islands_graph.

(** An edge whose geometry has one vertex, in another radar cell than its
    end nodes. *)
Definition bent : MultiDiGraph :=
  mkGraph (list_to_map [(1, nd (3 # 2) (1 # 2)); (2, nd (3 # 2) (1 # 2))])
          [((1, 2, 0), mkEdgeData 60 (Some [pt (1 # 2) (1 # 2)]) None)].

Definition unit_radar : Radar := mkRadar 0 0 1 1.

Definition ten_o_clock : Agora := mkAgora 2019 3 10 10 0 0.
Definition noon : Agora := mkAgora 2019 3 10 12 0 0.

Definition rain_weight : weight_fn :=
  fun g e _ rains =>
    match assoc (edges g) e, rains !! e with
    | Some d, Some r => (attr_travel_time d + inject_Z r)%Q
    | _, _ => 0%Q
    end.

(** A store with one clock, one graph, one network and one experiment
    from A to C. *)
Definition store_at (now : Agora) : Heap :=
  mkHeap [now] [abc_graph] [mkGrafoObj 0 10 0 10 0%nat]
         [mkExperiment 1 3 0%nat 0%nat unit_radar].

(** The same with the graph [islands_graph] and an experiment from 1
    to 2. *)
Definition islands_store (now : Agora) : Heap :=
  mkHeap [now] [islands_graph] [mkGrafoObj 0 10 0 10 0%nat]
         [mkExperiment 1 2 0%nat 0%nat unit_radar].

(** *** Vocabulary for the clock's rendering *)

(** The timestamps whose [repr] has its five fields at their declared
    widths. *)
Definition key_range (t : Agora) : Prop :=
  0 <= year t < 10000 /\ 0 <= month t < 100 /\ 0 <= day t < 100
  /\ 0 <= hour t < 100 /\ 0 <= minute t < 100.

Definition below_10000 : list Z := map Z.of_nat (seq 0 (100 * 100)).

(** *** Vocabulary for the edge lookup *)

(** The edge [e] goes from [u] to [v]. *)
Definition goes (u v : node) (e : edge) : Prop := e.1.1 = u /\ e.1.2 = v.

(** [e] is the first element of [l] with the property [P]. *)
Definition first_such (P : edge -> Prop) (l : list edge) (e : edge) : Prop :=
  exists pre post, l = pre ++ e :: post /\ P e /\ Forall (fun x => ~ P x) pre.

(** A network with a one-way street from B to A listed before the street
    from A to B. *)
Definition two_way : Grafo :=
  mkGrafo 0 10 0 10
    (mkGraph (list_to_map [(1, nd 0 0); (2, nd 1 0)])
             [((2, 1, 0), ed 50); ((1, 2, 0), ed 60); ((1, 2, 1), ed 70)]).

(** *** Vocabulary for the samples of an edge *)

(** The edge and its two end nodes are in the graph. *)
Definition edge_present (g : MultiDiGraph) (e : edge) : Prop :=
  is_Some (assoc (edges g) e)
  /\ is_Some (nodes g !! e.1.1) /\ is_Some (nodes g !! e.1.2).

(** A graph with an edge whose end node is missing. *)
Definition dangling : MultiDiGraph :=
  mkGraph (list_to_map [(1, nd 0 0)]) [((1, 2, 0), ed 60)].

(** ** Experiment.analysis *)

(** The ['length'] attribute of an edge of the graph, which [EdgeData]
    does not carry ([ox.distance.add_edge_lengths] sets it on every
    edge). *)
Variable attr_length : MultiDiGraph -> edge -> Q.

(** [sum(l)] on floats: from 0, left to right. *)
Definition py_sum (l : list Q) : Q := fold_left fadd l 0%Q.

(** [Experiment.analysis] on the network [self.grafo]; the three [print]s
    are not modelled.  The keys are taken in the order [map_to_list]
    gives, where Python takes them in the order of insertion: the last
    bits of the three sums can depend on that order, whether the call
    returns cannot. *)
Definition analysis (grafo : Grafo) (dictionary : gmap edge Z) : result (Q * Q * Q) :=
  let edge_path := map fst (map_to_list dictionary) in
  let! edge_lengths :=
    rmap (fun e => let! d := edge_data (graph grafo) e in
                   Ok (attr_length (graph grafo) e)) edge_path in
  let total_length := fdiv (py_sum edge_lengths) 1000 in
  let! edge_times :=
    rmap (fun e => let! d := edge_data (graph grafo) e in
                   Ok (attr_travel_time d)) edge_path in
  let total_time := py_sum edge_times in
  let! edge_rain_per_sec :=
    rmap (fun e => let! r := getitem (dictionary !! e) in
                   let! d := edge_data (graph grafo) e in
                   Ok (fmul (float_round (inject_Z r)) (attr_travel_time d)))
         edge_path in
  let rain_per_sec := py_sum edge_rain_per_sec in
  Ok (total_length, total_time, rain_per_sec).

(* ================================================================== *)
(** * Part II: the specification *)
(* ================================================================== *)

(** ** Clock *)

Lemma step_seconds (t : Agora) (a : Z) :
  normalized (step t a) /\ seconds_of (step t a) = seconds_of t + a /\
  year (step t a) = year t /\ month (step t a) = month t.
Proof.
  destruct t as [Y M D h m s].
  unfold normalized, seconds_of, step; cbn [year month day hour minute second].
  Z.to_euclidean_division_equations. lia.
Qed.

Lemma normalized_unique (t1 t2 : Agora) :
  normalized t1 -> normalized t2 ->
  seconds_of t1 = seconds_of t2 ->
  year t1 = year t2 -> month t1 = month t2 -> t1 = t2.
Proof.
  destruct t1, t2; unfold normalized, seconds_of; cbn.
  intros. f_equal; lia.
Qed.

Example format_d_examples :
  format_d 2 5 = "05"%string /\ format_d 4 2019 = "2019"%string
  /\ format_d 2 123 = "123"%string /\ format_d 4 (-5) = "-005"%string
  /\ repr (mkAgora 2019 3 10 10 0 59) = "201903101000"%string.
Proof. repeat split. Qed.

Example step_rollover :
  step (mkAgora 2019 3 10 23 59 59) 3661 = mkAgora 2019 3 11 1 1 0.
Proof. reflexivity. Qed.

(** Outside the invariant a step by 0 brings the time of day back into
    range. *)
Example step_zero_normalizes :
  step (mkAgora 2019 3 10 10 0 75) 0 = mkAgora 2019 3 10 10 1 15.
Proof. reflexivity. Qed.

(** C3. For non-negative [a] and [b] and every timestamp, stepping by [a]
    and then by [b] gives the same timestamp as stepping once by [a + b];
    a step never changes the year or the month; a step carries through
    second, minute, hour and day (the time of day of the result is in
    range and the result is exactly [a] seconds later); and stepping a
    timestamp whose time of day is in range by 0 changes nothing. *)
Theorem step_associative (t : Agora) (a b : Z) :
  0 <= a -> 0 <= b ->
  step (step t a) b = step t (a + b)
  /\ (year (step t a) = year t /\ month (step t a) = month t)
  /\ (normalized (step t a) /\ seconds_of (step t a) = seconds_of t + a)
  /\ (normalized t -> step t 0 = t).
Proof.
  intros _ _.
  destruct (step_seconds t a) as (Hn & Hs & Hy & Hm).
  split; [|split; [|split]]; try tauto.
  - destruct (step_seconds (step t a) b) as (Hn1 & Hs1 & Hy1 & Hm1).
    destruct (step_seconds t (a + b)) as (Hn2 & Hs2 & Hy2 & Hm2).
    apply normalized_unique; trivial; try congruence.
    rewrite Hs1, Hs2, Hs. ring.
  - intros Ht. destruct (step_seconds t 0) as (Hn0 & Hs0 & Hy0 & Hm0).
    apply normalized_unique; trivial. rewrite Hs0. ring.
Qed.

Lemma step_associative_witness :
  (0 <= 1 /\ 0 <= 599) /\
  step (step (mkAgora 2019 3 10 23 55 30) 1) 599
    = step (mkAgora 2019 3 10 23 55 30) 600 /\
  step (mkAgora 2019 3 10 23 55 30) 0 = mkAgora 2019 3 10 23 55 30.
Proof.
  split; [split; lia|].
  destruct (step_associative (mkAgora 2019 3 10 23 55 30) 1 599) as (H1 & _ & _ & H0);
    [lia | lia |].
  split; [exact H1 | apply H0; unfold normalized; cbn; lia].
Defined.

(** ** Oracle *)

Lemma Qltb_lt (a b : Q) : Qltb a b = true <-> (a < b)%Q.
Proof.
  unfold Qltb. rewrite negb_true_iff. split; intros H.
  - apply Qnot_le_lt. intros Hle. apply Qle_bool_iff in Hle. congruence.
  - destruct (Qle_bool b a) eqn:E; trivial.
    apply Qle_bool_iff in E. apply Qle_not_lt in E. contradiction.
Qed.

Lemma Qltb_ge (a b : Q) : Qltb a b = false <-> (b <= a)%Q.
Proof.
  unfold Qltb. rewrite negb_false_iff. apply Qle_bool_iff.
Qed.

Lemma filter_none {A} (f : A -> bool) (l : list A) :
  (forall a, In a l -> f a = false) -> List.filter f l = [].
Proof.
  induction l as [|a l IH]; cbn; intros H; trivial.
  rewrite (H a) by auto. apply IH. auto.
Qed.

(** The first of the [initial_indices] is the first position of the
    start node. *)
Lemma initial_indices_first (path : list node) (s : node) (k : nat) :
  first_index path s k ->
  exists tl,
    List.filter (fun i => bool_decide (path !! i = Some s)) (seq 0 (length path))
    = k :: tl.
Proof.
  intros [Hk Hlt].
  assert (Hlen : (k < length path)%nat) by (apply lookup_lt_is_Some; eauto).
  replace (length path) with (k + S (length path - S k))%nat by lia.
  rewrite seq_app, List.filter_app. cbn [seq List.filter]. cbn [Nat.add].
  rewrite filter_none.
  - rewrite bool_decide_eq_true_2 by exact Hk. cbn. eauto.
  - intros j Hj. apply in_seq in Hj. apply bool_decide_eq_false_2.
    apply Hlt. lia.
Qed.

Lemma initial_indices_none (path : list node) (s : node) :
  s ∉ path ->
  List.filter (fun i => bool_decide (path !! i = Some s)) (seq 0 (length path)) = [].
Proof.
  intros Hs. apply filter_none. intros j _. apply bool_decide_eq_false_2.
  intros Hj. apply Hs. eapply list_elem_of_lookup_2; eauto.
Qed.

(** The indexed loop is the walk along the nodes ahead, provided the fuel
    covers the rest of the path. *)
Lemma oracle_loop_walk (grafo : Grafo) (path : list node) :
  forall fuel tyme n c crossed,
    path !! n = Some c ->
    (length path <= fuel + n)%nat ->
    oracle_loop fuel grafo path tyme n c crossed
    = walk grafo tyme c (drop (S n) path) crossed.
Proof.
  induction fuel as [|fuel IH]; intros tyme n c crossed Hn Hfuel.
  - apply lookup_lt_Some in Hn. lia.
  - cbn [oracle_loop].
    destruct (path !! (n + 1)%nat) as [nxt|] eqn:Hnxt.
    + assert (Hd : drop (S n) path = nxt :: drop (S (S n)) path).
      { rewrite Nat.add_1_r in Hnxt. apply drop_S. exact Hnxt. }
      rewrite Hd. cbn [walk].
      assert (Hlt : (n <? length path - 1)%nat = true).
      { apply Nat.ltb_lt. apply lookup_lt_Some in Hnxt. lia. }
      rewrite Hlt, andb_true_r, Hn.
      destruct (Qltb 0 tyme); trivial.
      destruct (find_edge_by_nodes grafo c nxt) as [e|]; trivial.
      destruct (edge_data (graph grafo) e) as [d|]; cbn [rbind]; trivial.
      rewrite IH by (trivial; lia).
      now rewrite Nat.add_1_r.
    + assert (Hd : drop (S n) path = []).
      { apply drop_ge. apply lookup_ge_None in Hnxt. lia. }
      rewrite Hd. cbn [walk].
      assert (Hlt : (n <? length path - 1)%nat = false).
      { apply Nat.ltb_ge. apply lookup_ge_None in Hnxt. lia. }
      now rewrite Hlt, andb_false_r.
Qed.

Lemma oracle_walk (grafo : Grafo) (path : list node) (s : node) (k : nat) (tyme : Q) :
  first_index path s k ->
  oracle grafo path s tyme = walk grafo tyme s (drop (S k) path) [].
Proof.
  intros Hk. unfold oracle.
  destruct (initial_indices_first path s k Hk) as [tl ->].
  apply oracle_loop_walk; [apply Hk | lia].
Qed.

Lemma assoc_some (l : list (edge * EdgeData)) (e : edge) :
  In e (map fst l) -> is_Some (assoc l e).
Proof.
  induction l as [|[k d] l IH]; cbn; [tauto|].
  intros H. destruct (decide (k = e)); [eauto|].
  apply IH. destruct H; [contradiction | trivial].
Qed.

Lemma find_edge_in (grafo : Grafo) (u v : node) (e : edge) :
  find_edge_by_nodes grafo u v = Some e -> In e (edge_keys (graph grafo)).
Proof.
  unfold find_edge_by_nodes.
  set (e1 := List.filter _ _). set (e2 := List.filter _ _).
  destruct (e1 ++ e2) as [|e' l] eqn:E; [discriminate|].
  intros [= ->].
  assert (H : In e (e1 ++ e2)) by (rewrite E; left; trivial).
  apply in_app_or in H. destruct H as [H|H]; apply filter_In in H; tauto.
Qed.

(** An edge returned by [find_edge_by_nodes] joins the two nodes, in one
    direction or the other. *)
Lemma find_edge_joins (grafo : Grafo) (u v : node) (e : edge) :
  find_edge_by_nodes grafo u v = Some e ->
  (e.1.1 = u /\ e.1.2 = v) \/ (e.1.1 = v /\ e.1.2 = u).
Proof.
  unfold find_edge_by_nodes.
  set (e1 := List.filter _ _). set (e2 := List.filter _ _).
  destruct (e1 ++ e2) as [|e' l] eqn:E; [discriminate|].
  intros [= ->].
  assert (H : In e (e1 ++ e2)) by (rewrite E; left; trivial).
  apply in_app_or in H.
  destruct H as [H|H]; apply filter_In in H; destruct H as [_ H];
    apply andb_true_iff in H; destruct H as [H1 H2];
    apply Z.eqb_eq in H1, H2; tauto.
Qed.

Lemma find_edge_data (grafo : Grafo) (u v : node) (e : edge) :
  find_edge_by_nodes grafo u v = Some e ->
  exists d, assoc (edges (graph grafo)) e = Some d /\
            edge_data (graph grafo) e = Ok d /\
            travel_time grafo e = attr_travel_time d.
Proof.
  intros H. apply find_edge_in in H.
  destruct (assoc_some _ _ H) as [d Hd].
  exists d. unfold edge_data, travel_time. rewrite Hd. auto.
Qed.

Lemma route_edges_length (grafo : Grafo) :
  forall rest c, linked grafo c rest ->
    length (route_edges grafo c rest) = length rest.
Proof.
  induction rest as [|nxt rest IH]; intros c; cbn; trivial.
  intros [[e ->] Hl]. cbn. now rewrite IH.
Qed.

(** Closed form of the walk along a linked path: it crosses the first
    [steps] edges, in path order, and stops at the node after them. *)
Lemma walk_linked (grafo : Grafo) :
  forall rest tyme c crossed,
    linked grafo c rest ->
    let es := route_edges grafo c rest in
    let m := steps tyme (map (travel_time grafo) es) in
    exists reached,
      walk grafo tyme c rest crossed = Ok (reached, crossed ++ take m es)
      /\ (c :: rest) !! m = Some reached
      /\ (m <= length rest)%nat.
Proof.
  induction rest as [|nxt rest IH]; intros tyme c crossed Hl.
  - cbn. exists c. rewrite app_nil_r. auto.
  - destruct Hl as [[e He] Hl]. cbn [route_edges walk]. rewrite He.
    cbn [map steps].
    destruct (Qltb 0 tyme) eqn:Ht.
    + destruct (find_edge_data _ _ _ _ He) as (d & _ & -> & ->). cbn [rbind].
      destruct (IH (fsub tyme (attr_travel_time d)) nxt (crossed ++ [e]) Hl)
        as (r & Hw & Hr & Hm).
      exists r. rewrite Hw. cbn [take]. rewrite <- app_assoc. cbn [app].
      split; [trivial|]. split; [exact Hr | cbn; lia].
    + exists c. cbn. rewrite app_nil_r. split; [trivial|]. split; [trivial | lia].
Qed.

Lemma steps_positive (tyme t : Q) (ts : list Q) :
  (0 < tyme)%Q -> (1 <= steps tyme (t :: ts))%nat.
Proof.
  intros H. cbn. apply Qltb_lt in H. rewrite H. lia.
Qed.

Lemma budget_left_cons (tyme t : Q) (ts : list Q) :
  budget_left tyme (t :: ts) = budget_left (fsub tyme t) ts.
Proof. reflexivity. Qed.

(** The number of edges crossed is the first position at which the budget
    left is not positive. *)
Lemma steps_budget (ts : list Q) :
  forall tyme,
    (forall i, (i < steps tyme ts)%nat -> (0 < budget_left tyme (take i ts))%Q)
    /\ ((steps tyme ts < length ts)%nat ->
        (budget_left tyme (take (steps tyme ts) ts) <= 0)%Q)
    /\ (steps tyme ts <= length ts)%nat.
Proof.
  induction ts as [|t ts IH]; intros tyme; cbn [steps length].
  - split; [intros i Hi; lia|]. split; [lia | lia].
  - destruct (Qltb 0 tyme) eqn:Ht.
    + destruct (IH (fsub tyme t)) as (Hpos & Hstop & Hle).
      split; [|split].
      * intros [|i] Hi; cbn [take].
        -- now apply Qltb_lt.
        -- rewrite budget_left_cons. apply Hpos. lia.
      * intros Hlt. cbn [take]. rewrite budget_left_cons. apply Hstop. lia.
      * lia.
    + split; [intros i Hi; lia|]. split; [|lia].
      intros _. cbn. now apply Qltb_ge.
Qed.

(** Every edge is crossed exactly when the budget left before each of
    them is positive. *)
Lemma steps_all (ts : list Q) :
  forall tyme,
    steps tyme ts = length ts <->
    forall i, (i < length ts)%nat -> (0 < budget_left tyme (take i ts))%Q.
Proof.
  induction ts as [|t ts IH]; intros tyme; cbn [steps length].
  - split; [intros _ i Hi; lia | trivial].
  - split.
    + intros H. destruct (Qltb 0 tyme) eqn:Ht; [|discriminate].
      injection H as H. pose proof (proj1 (IH _) H) as H'.
      intros [|i] Hi; cbn [take].
      * now apply Qltb_lt.
      * rewrite budget_left_cons. apply H'. lia.
    + intros H.
      assert (Ht : Qltb 0 tyme = true) by (apply Qltb_lt, (H 0%nat); lia).
      rewrite Ht. f_equal. apply (proj2 (IH _)). intros i Hi.
      rewrite <- budget_left_cons. apply (H (S i)). lia.
Qed.

Lemma Qsum_cons (t : Q) (ts : list Q) : Qsum (t :: ts) = (t + Qsum ts)%Q.
Proof. reflexivity. Qed.

Lemma Qsum_take_le (ts : list Q) :
  Forall (fun t => 0 <= t)%Q ts ->
  forall i j, (i <= j)%nat -> (Qsum (take i ts) <= Qsum (take j ts))%Q.
Proof.
  induction 1 as [|t ts Ht _ IH]; intros i j Hij.
  - rewrite !take_nil. apply Qle_refl.
  - destruct i as [|i], j as [|j]; cbn [take]; try lia;
      rewrite ?Qsum_cons; change (Qsum []) with 0%Q.
    + lra.
    + assert (H0 : (Qsum (take 0 ts) <= Qsum (take j ts))%Q) by (apply IH; lia).
      rewrite take_0 in H0. change (Qsum []) with 0%Q in H0. lra.
    + assert (H0 : (Qsum (take i ts) <= Qsum (take j ts))%Q) by (apply IH; lia).
      lra.
Qed.

(** Where the subtractions are exact and no travel time is negative, the
    budget left before every edge is positive as soon as the travel times
    of all edges but the last add up to less than the budget. *)
Lemma budget_left_exact (tyme : Q) (ts : list Q) :
  (forall i, (i < length ts)%nat ->
     (budget_left tyme (take i ts) == tyme - Qsum (take i ts))%Q) ->
  Forall (fun t => 0 <= t)%Q ts ->
  (Qsum (take (length ts - 1) ts) < tyme)%Q ->
  forall i, (i < length ts)%nat -> (0 < budget_left tyme (take i ts))%Q.
Proof.
  intros Hexact Hpos Hsum i Hi. rewrite (Hexact i Hi).
  assert (H := Qsum_take_le ts Hpos i (length ts - 1)%nat ltac:(lia)).
  lra.
Qed.

(** Rounding sees a rational, not the fraction that stands for it. *)
Lemma float_round_comp (a b : Q) : (a == b)%Q -> float_round a = float_round b.
Proof.
  intros H. unfold float_round. now rewrite (Qred_complete a b H).
Qed.

(** When the start node is not in the path the oracle returns it with no
    edge. *)
Lemma oracle_start_missing (grafo : Grafo) (path : list node) (s : node) (tyme : Q) :
  s ∉ path -> oracle grafo path s tyme = Ok (s, []).
Proof.
  intros H. unfold oracle. now rewrite initial_indices_none.
Qed.

(** When [find_edge_by_nodes] finds nothing for the first pair to cross,
    the oracle raises. *)
Lemma oracle_find_edge_miss (grafo : Grafo) (path : list node) (s nxt : node)
    (k : nat) (tyme : Q) :
  first_index path s k -> path !! S k = Some nxt -> (0 < tyme)%Q ->
  find_edge_by_nodes grafo s nxt = None ->
  oracle grafo path s tyme = Raise TypeError.
Proof.
  intros Hk Hn Ht Hf. rewrite (oracle_walk _ _ _ k) by trivial.
  rewrite (drop_S _ _ _ Hn). cbn [walk].
  apply Qltb_lt in Ht. now rewrite Ht, Hf.
Qed.

(** C1. On a path A, B, C whose two edges take 300 s and 400 s, from A
    with a budget of 600 s, the oracle reaches C and has crossed the edge
    from A to B and then the edge from B to C: the budget is tested only
    between edges, so the second edge is crossed whole. *)
Theorem oracle_overshoot (grafo : Grafo) (A B C : node) (eAB eBC : edge) :
  find_edge_by_nodes grafo A B = Some eAB ->
  find_edge_by_nodes grafo B C = Some eBC ->
  (travel_time grafo eAB == 300)%Q ->
  (travel_time grafo eBC == 400)%Q ->
  oracle grafo [A; B; C] A 600 = Ok (C, [eAB; eBC]).
Proof.
  intros HAB HBC H300 H400.
  rewrite (oracle_walk _ _ _ 0%nat).
  2:{ split; [reflexivity | intros j Hj; lia]. }
  cbn [drop walk]. rewrite HAB, HBC.
  destruct (find_edge_data _ _ _ _ HAB) as (d1 & _ & -> & E1).
  destruct (find_edge_data _ _ _ _ HBC) as (d2 & _ & -> & E2).
  cbn [rbind]. rewrite E1 in H300. rewrite E2 in H400.
  assert (H1 : Qltb 0 600 = true) by reflexivity.
  assert (H2 : Qltb 0 (fsub 600 (attr_travel_time d1)) = true).
  { unfold fsub. rewrite (float_round_comp _ (600 - 300)); [reflexivity|].
    rewrite H300. reflexivity. }
  now rewrite H1, H2.
Qed.

Lemma oracle_overshoot_witness :
  oracle abc [1; 2; 3] 1 600 = Ok (3, [(1, 2, 0); (2, 3, 0)]).
Proof.
  apply (oracle_overshoot abc 1 2 3 (1, 2, 0) (2, 3, 0)); reflexivity.
Defined.

(** C2 (as amended). On a path whose consecutive nodes from the start index
    [k] on are linked by edges, with the start node before the last
    position and a positive budget, the oracle returns; it has crossed at
    least one edge; the node reached is at index [k] plus the number of
    edges crossed; and the crossed edges are the first edges of the
    remaining path, in path order.  The node reached is the last node of
    the path, with all [len(path) - 1 - k] remaining edges crossed,
    exactly when the budget left before each remaining edge is positive,
    the budget left being what the loop computes: the travel times of the
    edges before subtracted from the budget one by one, in floating
    point.  Where these subtractions are exact and no travel time is
    negative, that is the case as soon as the travel times of all
    remaining edges but the last add up to less than the budget. *)
Theorem oracle_monotone (grafo : Grafo) (path : list node) (s : node)
    (k : nat) (tyme : Q) :
  first_index path s k ->
  (S k < length path)%nat ->
  (0 < tyme)%Q ->
  linked grafo s (drop (S k) path) ->
  let es := route_edges grafo s (drop (S k) path) in
  let ts := map (travel_time grafo) es in
  exists reached crossed,
    oracle grafo path s tyme = Ok (reached, crossed)
    /\ (1 <= length crossed)%nat
    /\ path !! (k + length crossed)%nat = Some reached
    /\ crossed = take (length crossed) es
    /\ ((last path = Some reached
         /\ length crossed = (length path - 1 - k)%nat
         /\ crossed = es)
        <-> forall i, (i < length ts)%nat ->
              (0 < budget_left tyme (take i ts))%Q)
    /\ ((forall i, (i < length ts)%nat ->
           (budget_left tyme (take i ts) == tyme - Qsum (take i ts))%Q) ->
        Forall (fun t => 0 <= t)%Q ts ->
        (Qsum (take (length ts - 1) ts) < tyme)%Q ->
        last path = Some reached
        /\ length crossed = (length path - 1 - k)%nat
        /\ crossed = es).
Proof.
  intros Hk Hlen Ht Hl es ts.
  pose proof (route_edges_length grafo _ _ Hl) as Hes. fold es in Hes.
  rewrite length_drop in Hes.
  destruct (walk_linked grafo _ tyme s [] Hl) as (r & Hw & Hr & Hm).
  fold es in Hw, Hr, Hm. fold ts in Hw, Hr, Hm.
  set (m := steps tyme ts) in *.
  rewrite length_drop in Hm.
  assert (Em : m = steps tyme ts) by reflexivity.
  assert (Ets : length ts = length es) by apply length_map.
  clearbody m es.
  assert (Htake : length (take m es) = m) by (rewrite length_take; lia).
  exists r, (take m es). cbn [app] in Hw.
  rewrite (oracle_walk _ _ _ k) by trivial.
  rewrite Htake.
  assert (Hidx : path !! (k + m)%nat = Some r).
  { rewrite <- lookup_drop. destruct Hk as [Hk _].
    rewrite <- (drop_S _ _ _ Hk) in Hr. exact Hr. }
  assert (Hfull : m = length es ->
            last path = Some r /\ m = (length path - 1 - k)%nat
            /\ take m es = es).
  { intros Hall. split; [|split].
    - rewrite last_lookup, <- Hidx. f_equal. lia.
    - lia.
    - rewrite Hall. apply firstn_all. }
  split; [exact Hw|].
  split; [|split; [exact Hidx|split; [reflexivity|split]]].
  - rewrite Em. subst ts. destruct es as [|e es']; [cbn in Hes; lia|].
    cbn [map]. now apply steps_positive.
  - split.
    + intros (_ & Hm' & _). apply (proj1 (steps_all ts tyme)). lia.
    + intros Hb. apply Hfull. pose proof (proj2 (steps_all ts tyme) Hb). lia.
  - intros Hexact Hpos Hsum. apply Hfull.
    assert (Hb := budget_left_exact tyme ts Hexact Hpos Hsum).
    pose proof (proj2 (steps_all ts tyme) Hb). lia.
Qed.

Lemma oracle_monotone_witness :
  exists reached crossed,
    oracle abc [1; 2; 3] 1 700 = Ok (reached, crossed)
    /\ (1 <= length crossed)%nat
    /\ last [1; 2; 3] = Some reached
    /\ crossed = [(1, 2, 0); (2, 3, 0)].
Proof.
  destruct (oracle_monotone abc [1; 2; 3] 1 0%nat 700)
    as (r & c & Ho & H1 & _ & _ & Hfull & _).
  - split; [reflexivity | intros j Hj; lia].
  - cbn; lia.
  - Qclosed.
  - cbn. eauto.
  - exists r, c. destruct (proj2 Hfull) as (Hlast & _ & Hc).
    + intros [|[|i]] Hi; [Qclosed | Qclosed | cbn in Hi; lia].
    + auto.
Defined.

(** The full-path property fails as the specification words it: from the
    start index 1 of a three-node path one edge is crossed, not two; a
    budget equal to the total travel time stops before a last edge of
    travel time 0; and a budget of 600 that covers the three positive
    travel times of [tenths] is used up, in floating point, by the first
    two. *)
Lemma full_path_counterexample :
  ~ full_path_as_specified abc [1; 2; 3] 2 1000
  /\ ~ full_path_as_specified abc_zero [1; 2; 3] 1 300
  /\ ~ full_path_as_specified tenths [1; 2; 3; 4] 1 600.
Proof.
  split; [|split]; intros H.
  - destruct (H 1%nat) as (r & c & Ho & _ & Hc).
    + split; [reflexivity|]. intros j Hj.
      assert (j = 0%nat) as -> by lia. discriminate.
    + Qclosed.
    + vm_compute in Ho. injection Ho as <- <-. discriminate.
  - destruct (H 0%nat) as (r & c & Ho & Hr & _).
    + split; [reflexivity | intros j Hj; lia].
    + Qclosed.
    + vm_compute in Ho. injection Ho as <- <-. discriminate.
  - destruct (H 0%nat) as (r & c & Ho & Hr & _).
    + split; [reflexivity | intros j Hj; lia].
    + Qclosed.
    + vm_compute in Ho. injection Ho as <- <-. discriminate.
Qed.

(** In [tenths] the three travel times are positive and add up to less
    than 600, and the oracle stops at the third node: 600 - 0.1 - 599.9
    is 0.0. *)
Example oracle_rounding :
  Forall (fun e => 0 < travel_time tenths e)%Q (edge_keys (graph tenths))
  /\ (Qsum (map (travel_time tenths) (edge_keys (graph tenths))) < 600)%Q
  /\ oracle tenths [1; 2; 3; 4] 1 600 = Ok (3, [(1, 2, 0); (2, 3, 0)]).
Proof.
  split; [|split].
  - repeat constructor.
  - Qclosed.
  - vm_compute. reflexivity.
Qed.

Example oracle_from_middle :
  oracle abc [1; 2; 3] 2 1000 = Ok (3, [(2, 3, 0)]).
Proof. reflexivity. Qed.

Example oracle_zero_tail :
  oracle abc_zero [1; 2; 3] 1 300 = Ok (2, [(1, 2, 0)]).
Proof. reflexivity. Qed.

(** C5 (the code at the failing input). With no edge between the first
    two nodes of the path, [find_edge_by_nodes] returns nothing and the
    oracle raises instead of returning an empty result. *)
Theorem oracle_missing_edge_raises :
  find_edge_by_nodes unlinked 1 2 = None
  /\ oracle unlinked [1; 2] 1 600 = Raise TypeError.
Proof. split; reflexivity. Qed.

(** ** Flood classifier *)

Lemma flooded_scan_spec (p : Q * Q) (qs : list (Q * Q)) (tf : bool) :
  flooded_scan p qs tf
  = existsb (fun q => Qltb (great_circle_meters p q) 200) qs || tf.
Proof.
  induction qs as [|q qs IH]; cbn; trivial.
  destruct (Qltb (great_circle_meters p q) 200); cbn; trivial.
Qed.

Lemma flooded_fold_spec (ps qs : list (Q * Q)) (tf : bool) :
  fold_left (fun tf p => flooded_scan p qs tf) ps tf
  = existsb (fun p => existsb (fun q => Qltb (great_circle_meters p q) 200) qs) ps
    || tf.
Proof.
  revert tf. induction ps as [|p ps IH]; intros tf; cbn; trivial.
  rewrite IH, flooded_scan_spec.
  rewrite orb_assoc. f_equal. apply orb_comm.
Qed.

Lemma edge_lonlats_spec (g : MultiDiGraph) (e : edge) (d : EdgeData)
    (initial final : NodeData) :
  edge_data g e = Ok d ->
  node_data g e.1.1 = Ok initial ->
  node_data g e.1.2 = Ok final ->
  edge_lonlats g e
  = Ok (coords_of d ++ [(attr_x initial, attr_y initial);
                        (attr_x final, attr_y final)]).
Proof.
  intros Hd Hi Hf. unfold edge_lonlats. rewrite Hd, Hi, Hf. cbn.
  now rewrite <- app_assoc.
Qed.

Lemma is_flooded_permutation (g : MultiDiGraph) (e : edge)
    (qs qs' : list (Q * Q)) :
  Permutation qs qs' -> is_flooded g e qs = is_flooded g e qs'.
Proof.
  intros HP. unfold is_flooded.
  destruct (edge_lonlats g e) as [pts|]; cbn; trivial.
  f_equal. rewrite !flooded_fold_spec. f_equal.
  induction (map _ pts) as [|p ps IH]; cbn; trivial.
  rewrite IH. f_equal.
  apply eq_true_iff_eq. rewrite !existsb_exists.
  split; intros (q & Hq & Hlt); exists q; split; trivial.
  - eapply Permutation_in; eauto.
  - eapply Permutation_in; [symmetry|]; eauto.
Qed.

(** C6. For an edge of the graph whose end nodes are in the graph,
    [is_flooded] returns, and it returns [True] exactly when some sampled
    point (a vertex of the geometry or one of the two end nodes, as
    [(lat, lon)]) is less than 200 m from some flood point; and the result
    is the same for every permutation of the flood points. *)
Theorem is_flooded_spec (g : MultiDiGraph) (e : edge) (flooded_points : list (Q * Q))
    (d : EdgeData) (initial final : NodeData) :
  edge_data g e = Ok d ->
  node_data g e.1.1 = Ok initial ->
  node_data g e.1.2 = Ok final ->
  let sampled :=
    map (fun xy : Q * Q => (xy.2, xy.1))
        (coords_of d ++ [(attr_x initial, attr_y initial);
                         (attr_x final, attr_y final)]) in
  (exists tf,
     is_flooded g e flooded_points = Ok tf
     /\ (tf = true <->
         exists p q, In p sampled /\ In q flooded_points
                     /\ (great_circle_meters p q < 200)%Q))
  /\ (forall flooded_points',
        Permutation flooded_points flooded_points' ->
        is_flooded g e flooded_points' = is_flooded g e flooded_points).
Proof.
  intros Hd Hi Hf sampled. split.
  - unfold is_flooded. rewrite (edge_lonlats_spec _ _ _ _ _ Hd Hi Hf).
    cbn [rbind]. fold sampled. eexists. split; [reflexivity|].
    rewrite flooded_fold_spec, orb_false_r, existsb_exists.
    split.
    + intros (p & Hp & Hq). apply existsb_exists in Hq.
      destruct Hq as (q & Hq & Hlt). apply Qltb_lt in Hlt. eauto.
    + intros (p & q & Hp & Hq & Hlt). exists p. split; trivial.
      apply existsb_exists. exists q. split; trivial. now apply Qltb_lt.
  - intros qs' HP. symmetry. now apply is_flooded_permutation.
Qed.

(** ** Simulation: the planning step *)

Lemma dict_of_comprehension {V} (f : edge -> V) (keys : list edge) (e : edge) :
  dict_of (map (fun k => (k, f k)) keys) !! e
  = if decide (e ∈ keys) then Some (f e) else None.
Proof.
  unfold dict_of.
  assert (H : forall m0 : gmap edge V,
    fold_left (fun m kv => <[kv.1 := kv.2]> m) (map (fun k => (k, f k)) keys) m0 !! e
    = if decide (e ∈ keys) then Some (f e) else m0 !! e).
  { induction keys as [|k keys IH]; intros m0; cbn [map fold_left].
    - rewrite decide_False by apply not_elem_of_nil. trivial.
    - rewrite IH. cbn [fst snd].
      destruct (decide (e ∈ keys)) as [Hin|Hnin].
      + rewrite decide_True by (apply elem_of_cons; auto). trivial.
      + destruct (decide (k = e)) as [->|Hne].
        * rewrite decide_True by (apply elem_of_cons; auto). apply lookup_insert_eq.
        * rewrite decide_False.
          -- now apply lookup_insert_ne.
          -- intros Hc. apply elem_of_cons in Hc. destruct Hc; [congruence|contradiction]. }
  rewrite H. destruct (decide (e ∈ keys)); trivial.
Qed.

Lemma rmap_length {A B} (f : A -> result B) (l : list A) (l' : list B) :
  rmap f l = Ok l' -> length l' = length l.
Proof.
  revert l'. induction l as [|a l IH]; intros l' H; cbn [rmap] in H.
  - now injection H as <-.
  - bind_inv H. injection H as <-. cbn. f_equal. now apply IH.
Qed.

(** C8. In a pass of the main loop made when there is no rainfall matrix
    for the current time, the planning step returns the rainfall map that
    is 0 on every edge of the current graph (and has no other key) and
    leaves the store as it was; and the whole pass leaves every graph
    object, with its edge weights, and every network object as they
    were. *)
Theorem planning_without_grid (weight : weight_fn) (self : Experiment)
    (time graph_ref : loc) (now : Agora) (g : MultiDiGraph) (h : Heap) :
  agoras h !! time = Some now ->
  graphs h !! graph_ref = Some g ->
  rain_by_time (radar self) now = Ok None ->
  (exists rains,
     planning (radar self) weight graph_ref now (get_flooding_points now) h
       = Ok (rains, h)
     /\ (forall e, e ∈ edge_keys g -> rains !! e = Some 0)
     /\ (forall e v, rains !! e = Some v -> v = 0 /\ e ∈ edge_keys g))
  /\ (forall start edge_rains start' edge_rains' h',
        iteration weight self time graph_ref start edge_rains h
          = Ok (start', edge_rains', h') ->
        graphs h' = graphs h /\ grafos h' = grafos h).
Proof.
  intros Hnow Hg Habs.
  assert (Hp : planning (radar self) weight graph_ref now (get_flooding_points now) h
               = Ok (dict_of (map (fun e => (e, 0)) (edge_keys g)), h)).
  { unfold planning, load. rewrite Hg. cbn [getitem rbind].
    now rewrite Habs. }
  split.
  - eexists. split; [exact Hp|]. split.
    + intros e He. rewrite dict_of_comprehension. now rewrite decide_True.
    + intros e v. rewrite dict_of_comprehension.
      destruct (decide (e ∈ edge_keys g)); [|discriminate].
      intros [= <-]. auto.
  - intros start er start' er' h'. unfold iteration, load.
    rewrite Hnow. cbn [getitem rbind]. rewrite Hp. cbn [rbind].
    rewrite Hg. cbn [getitem rbind].
    destruct (astar_path _ _ _ _) as [sp|]; cbn [rbind]; [|discriminate].
    destruct (list_getitem sp 0) as [first|]; cbn [rbind]; [|discriminate].
    destruct (load_grafo _ _) as [gr|]; cbn [rbind]; [|discriminate].
    destruct (oracle _ _ _ _) as [[s' sub]|]; cbn [rbind]; [|discriminate].
    destruct (record_rains _ _ _) as [er2|]; cbn [rbind]; [|discriminate].
    intros [= _ _ <-]. auto.
Qed.

(** ** Simulation: what a run changes *)

Lemma same_network_refl (g : MultiDiGraph) : same_network g g.
Proof. split; reflexivity. Qed.

Lemma same_network_trans (g1 g2 g3 : MultiDiGraph) :
  same_network g1 g2 -> same_network g2 g3 -> same_network g1 g3.
Proof. intros [H1 H2] [H3 H4]. split; congruence. Qed.

Lemma set_edge_attributes_same (g : MultiDiGraph) (weights : gmap edge Q) :
  same_network (set_edge_attributes g weights) g.
Proof.
  split; [reflexivity|]. unfold set_edge_attributes. cbn [edges].
  rewrite map_map. apply map_ext. intros [k d]. cbn.
  destruct (weights !! k); reflexivity.
Qed.

(** After [set_edge_attributes] with a weight for every edge, every edge
    carries the weight computed for it. *)
Lemma set_edge_attributes_weights (g : MultiDiGraph) (f : edge -> Q) :
  forall e d,
    In (e, d) (edges (set_edge_attributes g
                        (dict_of (map (fun k => (k, f k)) (edge_keys g))))) ->
    attr_weight d = Some (f e).
Proof.
  intros e d. unfold set_edge_attributes. cbn [edges].
  rewrite in_map_iff. intros ([k d0] & Heq & Hin). cbn [fst snd] in Heq.
  rewrite dict_of_comprehension in Heq.
  rewrite decide_True in Heq.
  - now injection Heq as <- <-.
  - apply list_elem_of_In. unfold edge_keys. apply in_map_iff.
    exists (k, d0). auto.
Qed.

Lemma run_frame_refl (time graph_ref : loc) (h : Heap) : run_frame time graph_ref h h.
Proof.
  repeat split; trivial. intros g Hg. exists g. split; [trivial | apply same_network_refl].
Qed.

Lemma run_frame_trans (time graph_ref : loc) (h1 h2 h3 : Heap) :
  run_frame time graph_ref h1 h2 -> run_frame time graph_ref h2 h3 ->
  run_frame time graph_ref h1 h3.
Proof.
  intros (E1 & F1 & A1 & G1 & S1) (E2 & F2 & A2 & G2 & S2).
  split; [congruence|]. split; [congruence|].
  split; [intros r Hr; rewrite A2, A1; trivial|].
  split; [intros r Hr; rewrite G2, G1; trivial|].
  intros g Hg. destruct (S1 g Hg) as (g2 & Hg2 & Hs2).
  destruct (S2 g2 Hg2) as (g3 & Hg3 & Hs3).
  exists g3. split; [trivial | eapply same_network_trans; eauto].
Qed.

Lemma planning_frame (rdr : Radar) (weight : weight_fn) (time graph_ref : loc)
    (now : Agora) (fps : list (Q * Q)) (h h1 : Heap) (rains : gmap edge Z) :
  planning rdr weight graph_ref now fps h = Ok (rains, h1) ->
  run_frame time graph_ref h h1 /\ agoras h1 = agoras h.
Proof.
  unfold planning, load. intros H.
  destruct (graphs h !! graph_ref) as [g|] eqn:Hg; cbn [getitem rbind] in H;
    [|discriminate].
  destruct (rain_by_time rdr now) as [matrix|]; cbn [rbind] in H; [|discriminate].
  destruct (truthy matrix).
  - bind_inv H. injection H as <- <-. split; [|reflexivity].
    split; [reflexivity|]. split; [reflexivity|]. split; [reflexivity|].
    cbn [set_graphs graphs]. split.
    + intros r Hr. now apply list_lookup_insert_ne.
    + intros g0 Hg0. rewrite Hg in Hg0. injection Hg0 as <-.
      eexists. split; [|apply set_edge_attributes_same].
      apply list_lookup_insert_eq. eapply lookup_lt_Some; eauto.
  - injection H as <- <-. split; [apply run_frame_refl | reflexivity].
Qed.

Lemma iteration_frame (weight : weight_fn) (self : Experiment) (time graph_ref : loc)
    (start start' : node) (er er' : gmap edge Z) (h h' : Heap) :
  iteration weight self time graph_ref start er h = Ok (start', er', h') ->
  run_frame time graph_ref h h'.
Proof.
  unfold iteration. intros H. bind_inv H.
  injection H as <- <- <-.
  apply planning_frame with (time := time) in E0. destruct E0 as [Hf Ha].
  eapply run_frame_trans; [exact Hf|].
  split; [reflexivity|]. split; [reflexivity|]. split; [|split].
  - intros r Hr. cbn [set_agoras agoras]. now apply list_lookup_insert_ne.
  - reflexivity.
  - intros g0 Hg0. exists g0. split; [exact Hg0 | apply same_network_refl].
Qed.

Lemma experiment_loop_frame (weight : weight_fn) (self time graph_ref : loc) :
  forall fuel start er h er' h',
    experiment_loop fuel weight self time graph_ref start er h = Some (Ok (er', h')) ->
    run_frame time graph_ref h h'.
Proof.
  induction fuel as [|fuel IH]; intros start er h er' h'; cbn [experiment_loop];
    [discriminate|].
  destruct (load (experiments h) self) as [ex|]; [|discriminate].
  destruct (start =? destination ex).
  - intros [= <- <-]. apply run_frame_refl.
  - destruct (iteration _ _ _ _ _ _ _) as [[[s1 er1] h1]|] eqn:Hit; [|discriminate].
    intros Hloop. eapply run_frame_trans.
    + eapply iteration_frame; eauto.
    + eapply IH; eauto.
Qed.

Lemma step_twice (t : Agora) (a b : Z) : step (step t a) b = step t (a + b).
Proof.
  destruct (step_seconds t a) as (Hn & Hs & Hy & Hm).
  destruct (step_seconds (step t a) b) as (Hn1 & Hs1 & Hy1 & Hm1).
  destruct (step_seconds t (a + b)) as (Hn2 & Hs2 & Hy2 & Hm2).
  apply normalized_unique; trivial; try congruence.
  rewrite Hs1, Hs2, Hs. ring.
Qed.





(** ** Crop *)

Lemma py_min_glb (a b : Q) : (py_min a b <= a)%Q /\ (py_min a b <= b)%Q.
Proof.
  unfold py_min. destruct (Qltb b a) eqn:E.
  - apply Qltb_lt in E. split; lra.
  - apply Qltb_ge in E. split; lra.
Qed.

Lemma py_max_lub (a b : Q) : (a <= py_max a b)%Q /\ (b <= py_max a b)%Q.
Proof.
  unfold py_max. destruct (Qltb a b) eqn:E.
  - apply Qltb_lt in E. split; lra.
  - apply Qltb_ge in E. split; lra.
Qed.

Lemma py_max_le (a b c : Q) : (a <= c)%Q -> (b <= c)%Q -> (py_max a b <= c)%Q.
Proof. unfold py_max. destruct (Qltb a b); trivial. Qed.

Lemma py_min_ge (a b c : Q) : (c <= a)%Q -> (c <= b)%Q -> (c <= py_min a b)%Q.
Proof. unfold py_min. destruct (Qltb b a); trivial. Qed.

Lemma min_list_le (l : list Q) (m : Q) :
  min_list l = Ok m -> forall x, In x l -> (m <= x)%Q.
Proof.
  destruct l as [|a l]; [discriminate|]. cbn [min_list]. intros [= <-].
  revert a. induction l as [|b l IH]; intros a x; cbn [fold_left].
  - intros [->|[]]. lra.
  - intros Hx. destruct (py_min_glb a b) as [Ha Hb].
    assert (Hacc : (fold_left py_min l (py_min a b) <= py_min a b)%Q)
      by (apply IH; left; trivial).
    destruct Hx as [->|[->|Hx]]; [lra | lra |].
    apply IH. right. trivial.
Qed.

Lemma max_list_ge (l : list Q) (m : Q) :
  max_list l = Ok m -> forall x, In x l -> (x <= m)%Q.
Proof.
  destruct l as [|a l]; [discriminate|]. cbn [max_list]. intros [= <-].
  revert a. induction l as [|b l IH]; intros a x; cbn [fold_left].
  - intros [->|[]]. lra.
  - intros Hx. destruct (py_max_lub a b) as [Ha Hb].
    assert (Hacc : (py_max a b <= fold_left py_max l (py_max a b))%Q)
      by (apply IH; left; trivial).
    destruct Hx as [->|[->|Hx]]; [lra | lra |].
    apply IH. right. trivial.
Qed.


Section Crop.

(** What every version of [truncate_graph_bbox] does: it only removes
    nodes and edges. *)
Hypothesis truncate_removes :
  forall g north south east west g',
    truncate_graph_bbox g north south east west = Ok g' -> subgraph g' g.

(** A crop yields a network made of nodes and edges of the network it
    started from, so a second crop yields one contained in the first
    crop's. *)
Lemma crop_contained (self self' : Grafo) (u v : node) :
  crop self u v = Ok self' -> subgraph (graph self') (graph self).
Proof using truncate_removes.
  intros H. unfold crop in H. bind_inv H. injection H as <-.
  cbn [with_graph graph]. eapply truncate_removes; eauto.
Qed.

End Crop.

(** ** Flood points *)

Lemma below_100_In (n : Z) : 0 <= n < 100 -> In n below_100.
Proof.
  intros H. unfold below_100. apply in_map_iff. exists (Z.to_nat n).
  split; [lia | apply in_seq; lia].
Qed.

(** Two-digit renderings have two characters and compare as the numbers
    do; checked on all pairs below 100. *)
Lemma format_d_2_table :
  forallb (fun a =>
    Nat.eqb (String.length (format_d 2 a)) 2
    && forallb (fun b =>
         comparison_eqb (String.compare (format_d 2 a) (format_d 2 b)) (a ?= b))
         below_100)
    below_100 = true.
Proof. vm_compute. reflexivity. Qed.

Lemma format_d_2_length (a : Z) :
  0 <= a < 100 -> String.length (format_d 2 a) = 2%nat.
Proof.
  intros Ha. pose proof format_d_2_table as H.
  rewrite forallb_forall in H. specialize (H a (below_100_In a Ha)).
  apply andb_true_iff in H. destruct H as [H _]. now apply Nat.eqb_eq.
Qed.

Lemma format_d_2_compare (a b : Z) :
  0 <= a < 100 -> 0 <= b < 100 ->
  String.compare (format_d 2 a) (format_d 2 b) = (a ?= b).
Proof.
  intros Ha Hb. pose proof format_d_2_table as H.
  rewrite forallb_forall in H. specialize (H a (below_100_In a Ha)).
  apply andb_true_iff in H. destruct H as [_ H].
  rewrite forallb_forall in H. specialize (H b (below_100_In b Hb)).
  destruct (String.compare _ _), (a ?= b); trivial; discriminate.
Qed.

Lemma string_compare_app (s1 s2 r1 r2 : string) :
  String.length s1 = String.length s2 ->
  String.compare (s1 ++ r1) (s2 ++ r2)
  = match String.compare s1 s2 with
    | Eq => String.compare r1 r2
    | c => c
    end.
Proof.
  revert s2. induction s1 as [|c1 s1 IH]; intros [|c2 s2]; try discriminate.
  - intros _. reflexivity.
  - intros [= Hlen].
    change (String.compare (String c1 (s1 ++ r1)) (String c2 (s2 ++ r2))
            = match String.compare (String c1 s1) (String c2 s2) with
              | Eq => String.compare r1 r2
              | c => c
              end).
    cbn [String.compare]. destruct (Ascii.compare c1 c2); trivial. now apply IH.
Qed.

Lemma time_string_compare (h m s h' m' s' : Z) :
  0 <= h < 100 -> 0 <= m < 100 -> 0 <= s < 100 ->
  0 <= h' < 100 -> 0 <= m' < 100 -> 0 <= s' < 100 ->
  String.compare (time_string h m s) (time_string h' m' s')
  = match h ?= h' with
    | Eq => match m ?= m' with
            | Eq => s ?= s'
            | c => c
            end
    | c => c
    end.
Proof.
  intros Hh Hm Hs Hh' Hm' Hs'. unfold time_string.
  rewrite string_compare_app by (now rewrite !format_d_2_length).
  rewrite format_d_2_compare by trivial.
  destruct (h ?= h'); trivial.
  change (":" ++ ?r)%string with (String ":" r). cbn [String.compare].
  change (Ascii.compare ":" ":") with Eq. cbn match.
  rewrite string_compare_app by (now rewrite !format_d_2_length).
  rewrite format_d_2_compare by trivial.
  destruct (m ?= m'); trivial.
  change (":" ++ ?r)%string with (String ":" r). cbn [String.compare].
  change (Ascii.compare ":" ":") with Eq. cbn match.
  now apply format_d_2_compare.
Qed.

(** On renderings of times of day, the order of the strings is the order
    of the times. *)
Lemma time_string_ltb (h m s h' m' s' : Z) :
  time_of_day h m s -> time_of_day h' m' s' ->
  String.ltb (time_string h m s) (time_string h' m' s') = true
  <-> seconds_of_day h m s < seconds_of_day h' m' s'.
Proof.
  intros (Hh & Hm & Hs) (Hh' & Hm' & Hs'). unfold String.ltb.
  rewrite time_string_compare by lia. unfold seconds_of_day.
  destruct (Z.compare_spec h h'); [|split; [lia | trivial]|split; [discriminate | lia]].
  destruct (Z.compare_spec m m'); [|split; [lia | trivial]|split; [discriminate | lia]].
  destruct (Z.compare_spec s s'); split; trivial; try discriminate; lia.
Qed.

Lemma string_ltb_irrefl (s : string) : String.ltb s s = false.
Proof.
  unfold String.ltb.
  pose proof (String.compare_antisym s s) as H.
  destruct (String.compare s s); trivial; discriminate.
Qed.

(** C4 (as amended). The flood points of a timestamp are, in the order of
    the spreadsheet, the converted locations of exactly the rows whose
    [DATE] is the rendered date and whose [START_T] is strictly before and
    [END_T] strictly after the rendered time of day, in the order of
    strings; a row whose [START_T] is the rendered time is not selected;
    when the timestamp and the two ends of a row are times of day, the row
    is selected exactly when its date matches and the time lies strictly
    between its ends; and when no row is selected the result is the empty
    list. *)
Theorem get_flooding_points_open_interval (self : Agora) :
  (forall p,
     In p (get_flooding_points self) <->
     exists r, In r flood_df
       /\ DATE r = date_of self
       /\ String.ltb (START_T r) (time_of self) = true
       /\ String.ltb (time_of self) (END_T r) = true
       /\ p = convert_coordinates (X r) (Y r))
  /\ get_flooding_points self
     = map (fun r => convert_coordinates (X r) (Y r))
           (List.filter (flood_row_selected (date_of self) (time_of self)) flood_df)
  /\ (forall r, START_T r = time_of self ->
        flood_row_selected (date_of self) (time_of self) r = false)
  /\ (forall r h1 m1 s1 h2 m2 s2,
        time_of_day (hour self) (minute self) (second self) ->
        time_of_day h1 m1 s1 -> time_of_day h2 m2 s2 ->
        START_T r = time_string h1 m1 s1 -> END_T r = time_string h2 m2 s2 ->
        (flood_row_selected (date_of self) (time_of self) r = true <->
         DATE r = date_of self
         /\ seconds_of_day h1 m1 s1
            < seconds_of_day (hour self) (minute self) (second self)
            < seconds_of_day h2 m2 s2))
  /\ ((forall r, In r flood_df ->
         flood_row_selected (date_of self) (time_of self) r = false) ->
      get_flooding_points self = []).
Proof.
  split; [|split; [|split; [|split]]].
  - intros p. unfold get_flooding_points. rewrite in_map_iff. split.
    + intros (r & <- & Hr). apply filter_In in Hr. destruct Hr as [Hin Hsel].
      unfold flood_row_selected in Hsel.
      apply andb_true_iff in Hsel. destruct Hsel as [Hsel H3].
      apply andb_true_iff in Hsel. destruct Hsel as [H1 H2].
      apply String.eqb_eq in H1. exists r. auto.
    + intros (r & Hin & H1 & H2 & H3 & ->). exists r. split; trivial.
      apply filter_In. split; trivial. unfold flood_row_selected.
      apply String.eqb_eq in H1. now rewrite H1, H2, H3.
  - reflexivity.
  - intros r Hr. unfold flood_row_selected.
    rewrite Hr, string_ltb_irrefl. now rewrite andb_false_r.
  - intros r h1 m1 s1 h2 m2 s2 Hnow H1 H2 Hs He. unfold flood_row_selected.
    rewrite Hs, He. change (time_of self)
      with (time_string (hour self) (minute self) (second self)).
    rewrite !andb_true_iff, String.eqb_eq, !time_string_ltb by trivial. tauto.
  - intros Hnone. unfold get_flooding_points.
    now rewrite filter_none.
Qed.

(** ** Rainfall on an edge *)

Lemma max_listZ_spec (l : list Z) (v : Z) :
  max_listZ l = Ok v -> In v l /\ forall w, In w l -> w <= v.
Proof.
  destruct l as [|a l]; [discriminate|]. cbn [max_listZ]. intros [= <-].
  revert a. induction l as [|b l IH]; intros a; cbn [fold_left].
  - split; [left; trivial|]. intros w [->|[]]. lia.
  - destruct (IH (Z.max a b)) as [Hin Hmax]. split.
    + destruct Hin as [Hin|Hin]; [|right; right; trivial].
      rewrite <- Hin. destruct (Z.max_spec a b) as [[_ ->]|[_ ->]]; cbn; auto.
    + intros w [->|[->|Hw]].
      * specialize (Hmax (Z.max w b) (or_introl eq_refl)). lia.
      * specialize (Hmax (Z.max a w) (or_introl eq_refl)). lia.
      * apply Hmax. right. trivial.
Qed.

(** [int] of a non-negative quotient is its floor. *)
Lemma py_int_floor (q : Q) : (0 <= q)%Q -> py_int q = Qfloor q.
Proof.
  destruct q as [n d]. unfold Qle, py_int, Qfloor. cbn. intros H.
  apply Z.quot_div_nonneg; lia.
Qed.

Example py_int_truncates : py_int (-1 # 2) = 0 /\ Qfloor (-1 # 2) = -1.
Proof. split; reflexivity. Qed.

Lemma rowcol_spec (self : Radar) (lon lat : Q) :
  ~ (dlat self == 0)%Q -> ~ (dlon self == 0)%Q ->
  rowcol self (lon, lat)
  = Ok (py_int (fdiv (fsub lat (radar_lat0 self)) (dlat self)),
        py_int (fdiv (fsub lon (radar_lon0 self)) (dlon self))).
Proof.
  intros Hlat Hlon. unfold rowcol, py_div. cbn [fst snd].
  destruct (Qeq_bool (dlat self) 0) eqn:E1;
    [apply Qeq_bool_iff in E1; contradiction|].
  destruct (Qeq_bool (dlon self) 0) eqn:E2;
    [apply Qeq_bool_iff in E2; contradiction|].
  reflexivity.
Qed.

(** The floats 2.8 and 0.7 with a grid of origin 0.7 and spacing 0.7: the
    quotient of the floats is below 3, where the quotient of the numbers
    2.1 and 0.7 is 3. *)
Example rowcol_rounding :
  rowcol (mkRadar (float_round (7 # 10)) 0 (float_round (7 # 10)) 1)
         (0%Q, float_round (28 # 10)) = Ok (2, 0)
  /\ Qfloor (((28 # 10) - (7 # 10)) / (7 # 10)) = 3.
Proof. split; vm_compute; reflexivity. Qed.

(** C7 (as amended). For an edge of the graph whose end nodes are in the
    graph, the samples are the vertices of the geometry, if any, followed
    by the two end nodes.  With a matrix for the timestamp, and every
    sample mapping to a cell of it, the rainfall at the edge is the
    maximum of the matrix at the cells of the samples.  The cell of
    [(lon, lat)] is the quotients [(lat - lat0) / dlat] and
    [(lon - lon0) / dlon], subtraction and division being those of
    floats, truncated towards zero, which is the floor of these
    floating-point quotients when they are not negative.  Without a
    matrix for the timestamp the call raises, and so it does when reading
    the matrix raises. *)
Theorem rain_at_edge_max (self : Radar) (g : MultiDiGraph) (e : edge) (agora : Agora)
    (d : EdgeData) (initial final : NodeData) :
  edge_data g e = Ok d ->
  node_data g e.1.1 = Ok initial ->
  node_data g e.1.2 = Ok final ->
  let samples := coords_of d ++ [(attr_x initial, attr_y initial);
                                 (attr_x final, attr_y final)] in
  (forall matrix cells rainfall,
     rain_by_time self agora = Ok (Some matrix) ->
     rmap (rowcol self) samples = Ok cells ->
     rmap (matrix_at (Some matrix)) cells = Ok rainfall ->
     exists v, rain_at_edge self g e agora = Ok v
               /\ In v rainfall /\ forall w, In w rainfall -> w <= v)
  /\ (forall lon lat,
        ~ (dlat self == 0)%Q -> ~ (dlon self == 0)%Q ->
        let r := fdiv (fsub lat (radar_lat0 self)) (dlat self) in
        let c := fdiv (fsub lon (radar_lon0 self)) (dlon self) in
        rowcol self (lon, lat) = Ok (py_int r, py_int c)
        /\ ((0 <= r)%Q -> py_int r = Qfloor r)
        /\ ((0 <= c)%Q -> py_int c = Qfloor c))
  /\ (rain_by_time self agora = Ok None ->
      exists ex, rain_at_edge self g e agora = Raise ex)
  /\ (forall ex, rain_by_time self agora = Raise ex ->
        exists ex', rain_at_edge self g e agora = Raise ex').
Proof.
  intros Hd Hi Hf samples.
  pose proof (edge_lonlats_spec _ _ _ _ _ Hd Hi Hf) as Hs. fold samples in Hs.
  split; [|split; [|split]].
  - intros matrix cells rainfall Hm Hc Hr.
    unfold rain_at_edge. rewrite Hs. cbn [rbind]. rewrite Hc. cbn [rbind].
    rewrite Hm. cbn [rbind]. rewrite Hr. cbn [rbind].
    destruct (max_listZ rainfall) as [v|] eqn:Hv.
    + exists v. split; [reflexivity|]. now apply max_listZ_spec.
    + exfalso. apply rmap_length in Hc, Hr.
      destruct rainfall; [|discriminate].
      subst samples. rewrite Hc, length_app in Hr. cbn in Hr. lia.
  - intros lon lat Hlat Hlon r c. split; [now apply rowcol_spec|].
    split; apply py_int_floor.
  - intros Hnone. unfold rain_at_edge. rewrite Hs. cbn [rbind].
    destruct (rmap (rowcol self) samples) as [cells|ex] eqn:Hc; cbn [rbind];
      [|eauto].
    rewrite Hnone. cbn [rbind]. apply rmap_length in Hc.
    destruct cells as [|rc cells].
    + subst samples. rewrite length_app in Hc. cbn in Hc. lia.
    + cbn. eauto.
  - intros ex Hex. unfold rain_at_edge. rewrite Hs. cbn [rbind].
    destruct (rmap (rowcol self) samples) as [cells|ex'] eqn:Hc; cbn [rbind];
      [|eauto].
    rewrite Hex. cbn [rbind]. eauto.
Qed.

(** ** More on the clock *)

(** X1. Stepping a timestamp whose time of day is in range by any number
    of seconds and then by the opposite number gives the timestamp back. *)
Theorem step_inverse (t : Agora) (a : Z) :
  normalized t -> step (step t a) (- a) = t.
Proof.
  intros Ht.
  destruct (step_seconds t a) as (_ & Hs & Hy & Hm).
  destruct (step_seconds (step t a) (- a)) as (Hn' & Hs' & Hy' & Hm').
  apply normalized_unique; trivial; try congruence.
  rewrite Hs', Hs. ring.
Qed.

Lemma step_inverse_witness :
  step (step (mkAgora 2019 3 10 23 55 30) 600) (- 600) = mkAgora 2019 3 10 23 55 30.
Proof.
  apply (step_inverse (mkAgora 2019 3 10 23 55 30) 600).
  unfold normalized; cbn; lia.
Defined.

(** X2. Whatever its fields, a step by [a] seconds adds to the day the
    quotient by 86400 of the old seconds of the day plus [a], and leaves as
    seconds of the day the remainder; the day is never reduced modulo the
    length of a month, and the year and the month are not touched. *)
Theorem step_day_rollover (t : Agora) (a : Z) :
  day (step t a)
  = day t + (seconds_of_day (hour t) (minute t) (second t) + a) / 86400
  /\ seconds_of_day (hour (step t a)) (minute (step t a)) (second (step t a))
     = (seconds_of_day (hour t) (minute t) (second t) + a) mod 86400
  /\ year (step t a) = year t
  /\ month (step t a) = month t.
Proof.
  destruct (step_seconds t a) as (Hn & Hs & Hy & Hm).
  split; [|split; [|split; [exact Hy | exact Hm]]]; revert Hn Hs; clear Hy Hm;
    intros Hn Hs;
    unfold normalized, seconds_of in *; unfold seconds_of_day;
    generalize dependent (step t a); intros t' Hn Hs;
    destruct t as [Y M D h m s], t' as [Y' M' D' h' m' s'];
    cbn [year month day hour minute second] in *;
    assert (E : s + 60 * (m + 60 * h) + a
                = 86400 * (D' - D) + (s' + 60 * (m' + 60 * h'))) by lia.
  - rewrite <- (Z.div_unique _ 86400 (D' - D) (s' + 60 * (m' + 60 * h')));
      [lia | left; lia | exact E].
  - apply (Z.mod_unique _ 86400 (D' - D)); [left; lia | exact E].
Qed.


(** ** The rendered timestamp as a key *)

Lemma string_length_app (s1 s2 : string) :
  String.length (s1 ++ s2) = (String.length s1 + String.length s2)%nat.
Proof.
  induction s1 as [|c s1 IH]; [reflexivity|].
  change (String.length (String c (s1 ++ s2))
          = S (String.length s1 + String.length s2)).
  cbn [String.length]. now rewrite IH.
Qed.

Lemma string_app_inj (s1 s2 r1 r2 : string) :
  String.length s1 = String.length s2 ->
  (s1 ++ r1 = s2 ++ r2)%string -> s1 = s2 /\ r1 = r2.
Proof.
  revert s2. induction s1 as [|c1 s1 IH]; intros [|c2 s2]; try discriminate.
  - intros _ H. auto.
  - intros [= Hlen].
    change (String c1 (s1 ++ r1) = String c2 (s2 ++ r2) ->
            String c1 s1 = String c2 s2 /\ r1 = r2).
    intros [= -> H]. destruct (IH _ Hlen H) as [-> ->]. auto.
Qed.

Lemma below_10000_In (n : Z) : 0 <= n < 10000 -> In n below_10000.
Proof.
  intros H. unfold below_10000. apply in_map_iff. exists (Z.to_nat n).
  split; [lia | apply in_seq; lia].
Qed.

(** Four-digit renderings have four characters and denote the number;
    checked on every number below 10000. *)
Lemma format_d_4_table :
  forallb (fun y =>
    Nat.eqb (String.length (format_d 4 y)) 4
    && (digits_value (format_d 4 y) 0 =? y))
    below_10000 = true.
Proof. vm_compute. reflexivity. Qed.

Lemma format_d_4_length (y : Z) :
  0 <= y < 10000 -> String.length (format_d 4 y) = 4%nat.
Proof.
  intros Hy. pose proof format_d_4_table as H.
  rewrite forallb_forall in H. specialize (H y (below_10000_In y Hy)).
  apply andb_true_iff in H. destruct H as [H _]. now apply Nat.eqb_eq.
Qed.

Lemma format_d_4_inj (y y' : Z) :
  0 <= y < 10000 -> 0 <= y' < 10000 -> format_d 4 y = format_d 4 y' -> y = y'.
Proof.
  intros Hy Hy' E. pose proof format_d_4_table as H.
  rewrite forallb_forall in H.
  pose proof (H y (below_10000_In y Hy)) as H1.
  pose proof (H y' (below_10000_In y' Hy')) as H2.
  apply andb_true_iff in H1, H2. destruct H1 as [_ H1], H2 as [_ H2].
  apply Z.eqb_eq in H1, H2. rewrite E in H1. congruence.
Qed.

Lemma format_d_2_inj (a b : Z) :
  0 <= a < 100 -> 0 <= b < 100 -> format_d 2 a = format_d 2 b -> a = b.
Proof.
  intros Ha Hb E. pose proof (format_d_2_compare a b Ha Hb) as H.
  rewrite E in H. apply Z.compare_eq. rewrite <- H.
  pose proof (String.compare_antisym (format_d 2 b) (format_d 2 b)) as Hs.
  destruct (String.compare (format_d 2 b) (format_d 2 b)); trivial; discriminate.
Qed.

(** X3. For timestamps with a year below 10000 and month, day, hour and
    minute below 100 (none negative), the rendering has 12 characters, and
    two timestamps have the same rendering exactly when they agree on
    year, month, day, hour and minute: the key of the radar files tells
    minutes apart and nothing finer. *)
Theorem repr_key (t1 t2 : Agora) :
  key_range t1 -> key_range t2 ->
  String.length (repr t1) = 12%nat
  /\ (repr t1 = repr t2 <->
      year t1 = year t2 /\ month t1 = month t2 /\ day t1 = day t2
      /\ hour t1 = hour t2 /\ minute t1 = minute t2).
Proof.
  intros (Hy1 & Hm1 & Hd1 & Hh1 & Hi1) (Hy2 & Hm2 & Hd2 & Hh2 & Hi2).
  unfold repr. split.
  - rewrite !string_length_app, format_d_4_length, !format_d_2_length by trivial.
    reflexivity.
  - split.
    + intros E.
      apply string_app_inj in E; [|now rewrite !format_d_4_length].
      destruct E as [Ey E].
      apply string_app_inj in E; [|now rewrite !format_d_2_length].
      destruct E as [Em E].
      apply string_app_inj in E; [|now rewrite !format_d_2_length].
      destruct E as [Ed E].
      apply string_app_inj in E; [|now rewrite !format_d_2_length].
      destruct E as [Eh Ei].
      split; [now apply format_d_4_inj|].
      repeat split; now apply format_d_2_inj.
    + intros (E1 & E2 & E3 & E4 & E5). now rewrite E1, E2, E3, E4, E5.
Qed.

Lemma repr_key_witness :
  String.length (repr ten_o_clock) = 12%nat
  /\ repr ten_o_clock <> repr (mkAgora 2019 3 10 10 1 0)
  /\ repr ten_o_clock = repr (mkAgora 2019 3 10 10 0 59).
Proof.
  assert (R : forall t, t = ten_o_clock \/ t = mkAgora 2019 3 10 10 1 0
                        \/ t = mkAgora 2019 3 10 10 0 59 -> key_range t).
  { intros t [-> | [-> | ->]]; unfold key_range; cbn; lia. }
  destruct (repr_key ten_o_clock (mkAgora 2019 3 10 10 1 0)) as [Hlen Hiff];
    [apply R; auto | apply R; auto |].
  destruct (repr_key ten_o_clock (mkAgora 2019 3 10 10 0 59)) as [_ Hiff'];
    [apply R; auto | apply R; auto |].
  split; [exact Hlen|]. split.
  - intros E. apply Hiff in E. cbn in E. lia.
  - apply Hiff'. cbn. auto.
Defined.

(** ** More on the edge lookup *)

Lemma filter_head {A} (f : A -> bool) (l : list A) (a : A) (r : list A) :
  List.filter f l = a :: r ->
  exists pre post, l = pre ++ a :: post /\ f a = true
                   /\ Forall (fun x => f x = false) pre.
Proof.
  induction l as [|b l IH]; cbn [List.filter]; [discriminate|].
  destruct (f b) eqn:Hb.
  - intros [= -> _]. exists [], l. auto.
  - intros H. destruct (IH H) as (pre & post & -> & Ha & Hpre).
    exists (b :: pre), post. auto.
Qed.

Lemma filter_first {A} (f : A -> bool) (pre post : list A) (a : A) :
  f a = true -> Forall (fun x => f x = false) pre ->
  List.filter f (pre ++ a :: post) = a :: List.filter f post.
Proof.
  intros Ha Hpre. rewrite List.filter_app. cbn [List.filter]. rewrite Ha.
  rewrite filter_none; [reflexivity|]. now apply List.Forall_forall.
Qed.

Lemma filter_nil_Forall {A} (f : A -> bool) (l : list A) :
  List.filter f l = [] <-> Forall (fun x => f x = false) l.
Proof.
  split.
  - induction l as [|b l IH]; cbn [List.filter]; [constructor|].
    destruct (f b) eqn:Hb; [discriminate|]. auto.
  - intros H. apply filter_none. now apply List.Forall_forall.
Qed.

Lemma goes_test (u v : node) (e : edge) :
  (e.1.1 =? u) && (e.1.2 =? v) = true <-> goes u v e.
Proof. unfold goes. rewrite andb_true_iff, !Z.eqb_eq. tauto. Qed.

Lemma goes_test_false (u v : node) (e : edge) :
  (e.1.1 =? u) && (e.1.2 =? v) = false <-> ~ goes u v e.
Proof. rewrite <- goes_test. destruct (_ && _); split; congruence. Qed.

Lemma first_such_filter (u v : node) (l : list edge) (e : edge) :
  first_such (goes u v) l e <->
  exists r, List.filter (fun e : edge => (e.1.1 =? u) && (e.1.2 =? v)) l = e :: r.
Proof.
  split.
  - intros (pre & post & -> & He & Hpre). eexists. apply filter_first.
    + now apply goes_test.
    + eapply List.Forall_impl; [|exact Hpre]. intros x. apply goes_test_false.
  - intros (r & H). apply filter_head in H.
    destruct H as (pre & post & -> & He & Hpre). exists pre, post.
    split; [reflexivity|]. split; [now apply goes_test|].
    eapply List.Forall_impl; [|exact Hpre]. intros x. apply goes_test_false.
Qed.

(** X4. [find_edge_by_nodes] returns an edge exactly when it is the first
    edge, in the iteration order of the graph, that goes from the first
    node to the second, or, when no edge goes that way, the first edge
    that goes from the second node to the first: an edge in the direction
    asked for wins over an edge in the other direction listed before
    it. *)
Theorem find_edge_by_nodes_first (self : Grafo) (node1 node2 : node) (e : edge) :
  find_edge_by_nodes self node1 node2 = Some e <->
  first_such (goes node1 node2) (edge_keys (graph self)) e
  \/ (Forall (fun x => ~ goes node1 node2 x) (edge_keys (graph self))
      /\ first_such (goes node2 node1) (edge_keys (graph self)) e).
Proof.
  unfold find_edge_by_nodes. rewrite !first_such_filter.
  set (e1 := List.filter _ _). set (e2 := List.filter _ _).
  assert (Hnil : e1 = [] <-> Forall (fun x => ~ goes node1 node2 x)
                                     (edge_keys (graph self))).
  { unfold e1. rewrite filter_nil_Forall.
    split; intros H; (eapply List.Forall_impl; [|exact H]); intros x;
      apply goes_test_false. }
  split.
  - destruct e1 as [|a r] eqn:E1; cbn [app].
    + destruct e2 as [|b r2]; [discriminate|]. intros [= ->].
      right. split; [now apply Hnil | eauto].
    + intros [= ->]. left. eauto.
  - intros [(r & Hr) | (Hno & r & Hr)].
    + now rewrite Hr.
    + apply Hnil in Hno. now rewrite Hno, Hr.
Qed.

(** X5. [find_edge_by_nodes] returns nothing exactly when no edge of the
    graph joins the two nodes in either direction; so it finds an edge
    for a pair exactly when it finds one for the pair reversed. *)
Theorem find_edge_by_nodes_none (self : Grafo) (node1 node2 : node) :
  (find_edge_by_nodes self node1 node2 = None <->
   Forall (fun e => ~ goes node1 node2 e /\ ~ goes node2 node1 e)
          (edge_keys (graph self)))
  /\ (find_edge_by_nodes self node1 node2 = None <->
      find_edge_by_nodes self node2 node1 = None).
Proof.
  assert (H : forall u v,
    find_edge_by_nodes self u v = None <->
    Forall (fun e => ~ goes u v e /\ ~ goes v u e) (edge_keys (graph self))).
  { intros u v. unfold find_edge_by_nodes.
    set (e1 := List.filter _ _). set (e2 := List.filter _ _).
    assert (H1 : e1 = [] <-> Forall (fun x => ~ goes u v x) (edge_keys (graph self))).
    { unfold e1. rewrite filter_nil_Forall.
      split; intros H; (eapply List.Forall_impl; [|exact H]); intros x;
        apply goes_test_false. }
    assert (H2 : e2 = [] <-> Forall (fun x => ~ goes v u x) (edge_keys (graph self))).
    { unfold e2. rewrite filter_nil_Forall.
      split; intros H; (eapply List.Forall_impl; [|exact H]); intros x;
        apply goes_test_false. }
    rewrite Forall_and, <- H1, <- H2.
    destruct e1, e2; cbn; split; try discriminate; intuition congruence. }
  split; [apply H|]. rewrite !H.
  split; intros HF; (eapply List.Forall_impl; [|exact HF]); cbn; tauto.
Qed.

Example find_edge_two_way :
  find_edge_by_nodes two_way 1 2 = Some (1, 2, 0)
  /\ find_edge_by_nodes two_way 2 1 = Some (2, 1, 0).
Proof. split; reflexivity. Qed.

(** ** More on the oracle *)

Lemma first_index_exists (path : list node) (s : node) :
  s ∈ path -> exists k, first_index path s k.
Proof.
  induction path as [|a path IH]; intros Hs; [now apply elem_of_nil in Hs|].
  destruct (decide (a = s)) as [->|Hne].
  - exists 0%nat. split; [reflexivity | intros j Hj; lia].
  - apply elem_of_cons in Hs. destruct Hs as [Hs|Hs]; [congruence|].
    destruct (IH Hs) as (k & Hk & Hlt). exists (S k). split; [exact Hk|].
    intros [|j] Hj; cbn.
    + congruence.
    + apply Hlt. lia.
Qed.

(** X6. With a budget that is not positive, or a start node that is not
    in the path, or a start node whose first position is the last of the
    path, the oracle returns the start node and no edge; it looks up no
    edge and cannot raise. *)
Theorem oracle_no_movement (grafo : Grafo) (path : list node) (s : node) (tyme : Q) :
  (tyme <= 0)%Q \/ s ∉ path \/ first_index path s (length path - 1) ->
  oracle grafo path s tyme = Ok (s, []).
Proof.
  intros H. destruct (decide (s ∈ path)) as [Hin|Hnin];
    [|now apply oracle_start_missing].
  destruct (first_index_exists _ _ Hin) as (k & Hk).
  rewrite (oracle_walk _ _ _ k) by exact Hk.
  destruct (drop (S k) path) as [|nxt rest] eqn:Hd; [reflexivity|].
  cbn [walk]. destruct H as [Ht | [Hn | Hlast]].
  - apply Qltb_ge in Ht. now rewrite Ht.
  - contradiction.
  - exfalso. assert (k = (length path - 1)%nat).
    { destruct Hk as [Hk Hmin], Hlast as [Hl Hlmin].
      destruct (Nat.lt_trichotomy k (length path - 1)) as [Hlt|[->|Hgt]];
        trivial.
      - exfalso. eapply Hlmin; eauto.
      - apply lookup_lt_Some in Hk. lia. }
    subst k. assert (Hlen : length (drop (S (length path - 1)) path) = 0%nat)
      by (rewrite length_drop; lia).
    rewrite Hd in Hlen. discriminate.
Qed.

Lemma oracle_no_movement_witness :
  oracle abc [1; 2; 3] 1 0 = Ok (1, [])
  /\ oracle unlinked [1; 2] 1 (-5) = Ok (1, [])
  /\ oracle abc [1; 2; 3] 3 600 = Ok (3, []).
Proof.
  split; [|split].
  - apply oracle_no_movement. left. Qclosed.
  - apply oracle_no_movement. left. Qclosed.
  - apply oracle_no_movement. right. right.
    split; [reflexivity|]. intros j Hj. cbn in Hj.
    destruct j as [|[|j]]; [discriminate | discriminate | lia].
Defined.


(** What a walk that returns has done: the edges it added, the node it
    stopped at, the pair each edge was looked up for, and the budget
    tests it passed and failed. *)
Lemma walk_trace (grafo : Grafo) :
  forall rest tyme c acc r crossed,
    walk grafo tyme c rest acc = Ok (r, crossed) ->
    exists new,
      crossed = acc ++ new
      /\ (c :: rest) !! length new = Some r
      /\ (forall i e, new !! i = Some e ->
            exists u v, (c :: rest) !! i = Some u /\ (c :: rest) !! S i = Some v
                        /\ find_edge_by_nodes grafo u v = Some e)
      /\ (forall i, (i < length new)%nat ->
            (0 < budget_left tyme (map (travel_time grafo) (take i new)))%Q)
      /\ ((length new < length rest)%nat ->
            (budget_left tyme (map (travel_time grafo) new) <= 0)%Q).
Proof.
  induction rest as [|nxt rest IH]; intros tyme c acc r crossed H; cbn [walk] in H.
  - injection H as <- <-. exists []. rewrite app_nil_r.
    split; [trivial|]. split; [trivial|].
    split; [intros i e; rewrite lookup_nil; discriminate|].
    split; cbn; intros; lia.
  - destruct (Qltb 0 tyme) eqn:Ht.
    + destruct (find_edge_by_nodes grafo c nxt) as [e|] eqn:He; [|discriminate].
      destruct (find_edge_data _ _ _ _ He) as (d & _ & Hd & Htt).
      rewrite Hd in H. cbn [rbind] in H.
      destruct (IH _ _ _ _ _ H) as (new & -> & Hr & Hpairs & Hpass & Hfail).
      exists (e :: new). rewrite <- app_assoc. cbn [app length].
      split; [trivial|]. split; [exact Hr|]. split; [|split].
      * intros [|i] e'; cbn.
        -- intros [= <-]. eauto.
        -- intros Hi. destruct (Hpairs i e' Hi) as (u & v & Hu & Hv & Hf).
           exists u, v. auto.
      * intros [|i] Hi.
        -- cbn. now apply Qltb_lt.
        -- cbn [take map]. rewrite budget_left_cons, Htt.
           apply Hpass. lia.
      * intros Hlen. cbn [map]. rewrite budget_left_cons, Htt.
        apply Hfail. lia.
    + injection H as <- <-. exists []. rewrite app_nil_r.
      split; [trivial|]. split; [trivial|].
      split; [intros i e; rewrite lookup_nil; discriminate|].
      split; [cbn; intros; lia|]. intros _. cbn. now apply Qltb_ge.
Qed.

Lemma lookup_from_start (path : list node) (s : node) (k i : nat) :
  path !! k = Some s -> (s :: drop (S k) path) !! i = path !! (k + i)%nat.
Proof. intros Hk. rewrite <- (drop_S _ _ _ Hk). apply lookup_drop. Qed.

(** X7. Whenever the oracle returns from the start index [k], the node
    it returns is the node of the path at index [k] plus the number of
    edges crossed, and the [i]-th crossed edge is an edge of the graph,
    the one [find_edge_by_nodes] gives for the nodes at indices [k + i]
    and [k + i + 1], which it joins in one direction or the other. *)
Theorem oracle_crossed_edges (grafo : Grafo) (path : list node) (s : node)
    (k : nat) (tyme : Q) (reached : node) (crossed : list edge) :
  first_index path s k ->
  oracle grafo path s tyme = Ok (reached, crossed) ->
  path !! (k + length crossed)%nat = Some reached
  /\ forall i e, crossed !! i = Some e ->
       In e (edge_keys (graph grafo))
       /\ exists u v,
            path !! (k + i)%nat = Some u /\ path !! (k + i + 1)%nat = Some v
            /\ find_edge_by_nodes grafo u v = Some e
            /\ (goes u v e \/ goes v u e).
Proof.
  intros Hk H. rewrite (oracle_walk _ _ _ k) in H by exact Hk.
  destruct (walk_trace _ _ _ _ _ _ _ H) as (new & -> & Hr & Hpairs & _).
  cbn [app]. destruct Hk as [Hk _].
  split; [now rewrite <- (lookup_from_start _ _ _ _ Hk)|].
  intros i e Hi. destruct (Hpairs i e Hi) as (u & v & Hu & Hv & Hf).
  split; [eapply find_edge_in; eauto|].
  exists u, v.
  split; [now rewrite <- (lookup_from_start _ _ _ _ Hk)|].
  split.
  { rewrite Nat.add_1_r, <- Nat.add_succ_r, <- (lookup_from_start _ _ _ _ Hk).
    exact Hv. }
  split; [exact Hf | apply find_edge_joins in Hf; exact Hf].
Qed.

Lemma oracle_crossed_edges_witness :
  exists reached crossed,
    oracle abc [1; 2; 3] 2 600 = Ok (reached, crossed)
    /\ [1; 2; 3] !! (1 + length crossed)%nat = Some reached.
Proof.
  assert (Hok : is_ok (oracle abc [1; 2; 3] 2 600) = true)
    by (vm_compute; reflexivity).
  destruct (oracle abc [1; 2; 3] 2 600) as [[r c]|] eqn:E; [|discriminate Hok].
  exists r, c. split; [reflexivity|].
  apply (oracle_crossed_edges abc [1; 2; 3] 2 1%nat 600 r c); [|exact E].
  split; [reflexivity|]. intros j Hj.
  assert (j = 0%nat) as -> by lia. discriminate.
Defined.

(** X8. Whenever the oracle returns, the budget left before each
    crossed edge (the budget minus the travel times of the edges crossed
    before it, subtracted one by one as floats) is positive, and if it
    stopped before the last node of the path the budget left after the
    crossed edges is zero or negative. *)
Theorem oracle_budget (grafo : Grafo) (path : list node) (s : node)
    (k : nat) (tyme : Q) (reached : node) (crossed : list edge) :
  first_index path s k ->
  oracle grafo path s tyme = Ok (reached, crossed) ->
  (forall i, (i < length crossed)%nat ->
     (0 < budget_left tyme (map (travel_time grafo) (take i crossed)))%Q)
  /\ ((k + length crossed < length path - 1)%nat ->
      (budget_left tyme (map (travel_time grafo) crossed) <= 0)%Q).
Proof.
  intros Hk H. rewrite (oracle_walk _ _ _ k) in H by exact Hk.
  destruct (walk_trace _ _ _ _ _ _ _ H) as (new & -> & _ & _ & Hpass & Hfail).
  cbn [app]. split; [exact Hpass|].
  intros Hlen. apply Hfail. rewrite length_drop. lia.
Qed.

Lemma oracle_budget_witness :
  exists reached crossed,
    oracle abcd [1; 2; 3; 4] 1 600 = Ok (reached, crossed)
    /\ (budget_left 600 (map (travel_time abcd) crossed) <= 0)%Q.
Proof.
  assert (Hok : is_ok (oracle abcd [1; 2; 3; 4] 1 600) = true)
    by (vm_compute; reflexivity).
  destruct (oracle abcd [1; 2; 3; 4] 1 600) as [[r c]|] eqn:E; [|discriminate Hok].
  exists r, c. split; [reflexivity|].
  destruct (oracle_budget abcd [1; 2; 3; 4] 1 0%nat 600 r c) as [_ Hstop];
    [split; [reflexivity | intros j Hj; lia] | exact E |].
  apply Hstop. vm_compute in E. injection E as <- <-. cbn. lia.
Defined.

(** ** More on the flood classifier *)

Lemma edge_lonlats_returns (g : MultiDiGraph) (e : edge) :
  ((exists pts, edge_lonlats g e = Ok pts) <-> edge_present g e)
  /\ (~ edge_present g e -> edge_lonlats g e = Raise KeyError).
Proof.
  unfold edge_present, edge_lonlats, edge_data, node_data.
  destruct (assoc (edges g) e) as [d|]; cbn.
  - destruct (nodes g !! e.1.1) as [i|]; cbn.
    + destruct (nodes g !! e.1.2) as [f|]; cbn.
      * split; [|intros H; exfalso; apply H; eauto].
        split; eauto.
      * split; [|trivial]. split.
        -- intros [pts H]. discriminate.
        -- intros (_ & _ & [x H]). discriminate.
    + split; [|trivial]. split.
      * intros [pts H]. discriminate.
      * intros (_ & [x H] & _). discriminate.
  - split; [|trivial]. split.
    + intros [pts H]. discriminate.
    + intros ([x H] & _). discriminate.
Qed.

(** X9. [is_flooded] and [rain_at_edge] return only for an edge that is
    in the graph with both its end nodes; for any other edge both raise
    [KeyError], whatever the flood points, and before any distance is
    computed or any radar file is read. *)
Theorem samples_need_edge (g : MultiDiGraph) (e : edge) :
  (forall qs tf, is_flooded g e qs = Ok tf -> edge_present g e)
  /\ (forall rdr t v, rain_at_edge rdr g e t = Ok v -> edge_present g e)
  /\ (~ edge_present g e ->
      (forall qs, is_flooded g e qs = Raise KeyError)
      /\ (forall rdr t, rain_at_edge rdr g e t = Raise KeyError)).
Proof.
  destruct (edge_lonlats_returns g e) as [Hiff Hraise].
  split; [|split].
  - intros qs tf H. apply Hiff. unfold is_flooded in H.
    destruct (edge_lonlats g e) as [pts|]; [eauto | discriminate].
  - intros rdr t v H. apply Hiff. unfold rain_at_edge in H.
    destruct (edge_lonlats g e) as [pts|]; [eauto | discriminate].
  - intros Hno. specialize (Hraise Hno). unfold is_flooded, rain_at_edge.
    rewrite Hraise. auto.
Qed.

(** X10. With no flood point [is_flooded] never returns [True]; and when
    it returns [True] for a list of flood points it returns [True] for
    every list that contains them. *)
Theorem is_flooded_more_points (g : MultiDiGraph) (e : edge) (qs qs' : list (Q * Q)) :
  (forall q, In q qs -> In q qs') ->
  is_flooded g e [] <> Ok true
  /\ (is_flooded g e qs = Ok true -> is_flooded g e qs' = Ok true).
Proof.
  intros Hincl. unfold is_flooded.
  destruct (edge_lonlats g e) as [pts|]; cbn [rbind]; [|split; discriminate].
  rewrite !flooded_fold_spec, !orb_false_r. split.
  - intros [= H]. apply existsb_exists in H. destruct H as (p & _ & H).
    discriminate.
  - intros [= H]. f_equal. apply existsb_exists in H.
    destruct H as (p & Hp & H). apply existsb_exists. exists p. split; trivial.
    apply existsb_exists in H. destruct H as (q & Hq & H).
    apply existsb_exists. exists q. auto.
Qed.

(** ** More on the radar matrix *)

Lemma rmap_In_inv {A B} (f : A -> result B) (l : list A) (l' : list B) :
  rmap f l = Ok l' -> forall b, In b l' -> exists a, In a l /\ f a = Ok b.
Proof.
  revert l'. induction l as [|a0 l IH]; intros l' H b Hb; cbn [rmap] in H.
  - injection H as <-. destruct Hb.
  - bind_inv H. injection H as <-. destruct Hb as [->|Hb].
    + exists a0. split; [left; trivial | trivial].
    + destruct (IH _ eq_refl b Hb) as (a' & Ha' & Hf).
      exists a'. split; [right; trivial | trivial].
Qed.

Lemma list_getitem_In {A} (l : list A) (i : Z) (a : A) :
  list_getitem l i = Ok a -> In a l.
Proof.
  unfold list_getitem. destruct (_ || _); [discriminate|].
  destruct (nth_error l _) eqn:E; [|discriminate].
  intros [= <-]. eapply nth_error_In; eauto.
Qed.

(** X12. Whenever [rain_at_edge] returns a value, the value is that of
    a token of the radar file of the rendered timestamp: 0 for the token
    ["-99"], and what [int] gives for any other token.  So it is not
    negative when [int] gives no negative value for a token of the file
    other than ["-99"]. *)
Theorem rain_at_edge_entry (self : Radar) (g : MultiDiGraph) (e : edge)
    (t : Agora) (v : Z) :
  rain_at_edge self g e t = Ok v ->
  exists data line entry,
    radar_file (repr t) = Ok (Some data) /\ In line data /\ In entry line
    /\ (entry = "-99"%string -> v = 0)
    /\ (entry <> "-99"%string -> int_of_str entry = Ok v)
    /\ ((forall l x z, In l data -> In x l -> x <> "-99"%string ->
                       int_of_str x = Ok z -> 0 <= z) -> 0 <= v).
Proof.
  intros H. unfold rain_at_edge in H.
  destruct (edge_lonlats g e) as [pts|]; cbn [rbind] in H; [|discriminate].
  destruct (rmap (rowcol self) pts) as [cells|]; cbn [rbind] in H; [|discriminate].
  destruct (rain_by_time self t) as [matrix|] eqn:Hm; cbn [rbind] in H;
    [|discriminate].
  destruct (rmap (matrix_at matrix) cells) as [rainfall|] eqn:Hr; cbn [rbind] in H;
    [|discriminate].
  apply max_listZ_spec in H. destruct H as [Hv _].
  destruct (rmap_In_inv _ _ _ Hr v Hv) as (rc & _ & Hrc).
  unfold matrix_at in Hrc. destruct matrix as [m|]; [|discriminate].
  destruct (list_getitem m rc.1) as [row|] eqn:Hrow; cbn [rbind] in Hrc;
    [|discriminate].
  apply list_getitem_In in Hrow, Hrc.
  unfold rain_by_time in Hm.
  destruct (radar_file (repr t)) as [[[|l0 ls]|]|]; cbn [rbind] in Hm;
    try discriminate.
  destruct (rmap (rmap entry_value) (l0 :: ls)) as [A|] eqn:HA; cbn [rbind] in Hm;
    [|discriminate].
  injection Hm as ->.
  destruct (rmap_In_inv _ _ _ HA _ Hrow) as (line & Hline & Hl).
  destruct (rmap_In_inv _ _ _ Hl _ Hrc) as (entry & Hentry & He).
  exists (l0 :: ls), line, entry.
  split; [trivial|]. split; [trivial|]. split; [trivial|].
  unfold entry_value in He.
  destruct (String.eqb entry "-99") eqn:Ee.
  - apply String.eqb_eq in Ee. injection He as <-.
    split; [trivial|]. split; [congruence|]. intros _. lia.
  - apply String.eqb_neq in Ee.
    split; [congruence|]. split; [trivial|]. intros Hpos. eapply Hpos; eauto.
Qed.

(** ** More on the flood points *)

(** X13. A row whose two ends are times of day with [END_T] not after
    [START_T] (an interval that would run past midnight, or an empty one)
    is selected at no time of day, whatever the date. *)
Theorem flood_interval_never_wraps (r : FloodRow) (h1 m1 s1 h2 m2 s2 : Z)
    (self : Agora) :
  time_of_day h1 m1 s1 -> time_of_day h2 m2 s2 ->
  START_T r = time_string h1 m1 s1 -> END_T r = time_string h2 m2 s2 ->
  seconds_of_day h2 m2 s2 <= seconds_of_day h1 m1 s1 ->
  time_of_day (hour self) (minute self) (second self) ->
  flood_row_selected (date_of self) (time_of self) r = false.
Proof.
  intros H1 H2 Hs He Hle Hnow. unfold flood_row_selected.
  rewrite Hs, He.
  change (time_of self) with (time_string (hour self) (minute self) (second self)).
  destruct (String.ltb (time_string h1 m1 s1) _) eqn:E1;
    [|now rewrite andb_false_r].
  destruct (String.ltb _ (time_string h2 m2 s2)) eqn:E2;
    [|now rewrite andb_false_r].
  apply time_string_ltb in E1, E2; trivial. lia.
Qed.

(** ** More on the crop *)

(** X14. A crop that returns leaves the four bounds of the network as
    they were, and the box it hands to the truncation never reaches
    outside them: its south and west sides are not below [lat0] and
    [lon0], its north and east sides not above [latoo] and [lonoo]. *)
Theorem crop_box_within_bounds (self self' : Grafo) (u v : node) :
  crop self u v = Ok self' ->
  (lat0 self' = lat0 self /\ latoo self' = latoo self
   /\ lon0 self' = lon0 self /\ lonoo self' = lonoo self)
  /\ exists gmaps_path north south east west,
       astar_path (graph self) u v by_travel_time = Ok gmaps_path
       /\ truncate_graph_bbox (graph self) north south east west = Ok (graph self')
       /\ (lat0 self <= south)%Q /\ (north <= latoo self)%Q
       /\ (lon0 self <= west)%Q /\ (east <= lonoo self)%Q.
Proof.
  intros H. unfold crop in H. bind_inv H. injection H as <-.
  split; [cbn; auto|].
  eexists _, _, _, _, _. split; [reflexivity|]. split; [exact E6|].
  cbn [with_graph graph].
  repeat split; first [apply py_max_lub | apply py_min_glb].
Qed.

(** ** More on the simulation *)

Lemma planning_inv (rdr : Radar) (weight : weight_fn) (graph_ref : loc)
    (now : Agora) (fps : list (Q * Q)) (h h1 : Heap) (rains : gmap edge Z) :
  planning rdr weight graph_ref now fps h = Ok (rains, h1) ->
  exists g matrix,
    graphs h !! graph_ref = Some g
    /\ rain_by_time rdr now = Ok matrix
    /\ ((truthy matrix = true
         /\ exists l,
              rmap (fun e => let! v := rain_at_edge rdr g e now in Ok (e, v))
                   (edge_keys g) = Ok l
              /\ rains = dict_of l
              /\ h1 = set_graphs h (<[graph_ref :=
                        set_edge_attributes g
                          (dict_of (map (fun e => (e, weight g e fps rains))
                                        (edge_keys g)))]> (graphs h)))
        \/ (truthy matrix = false
            /\ rains = dict_of (map (fun e => (e, 0)) (edge_keys g))
            /\ h1 = h)).
Proof.
  unfold planning, load. intros H.
  destruct (graphs h !! graph_ref) as [g|]; cbn [getitem rbind] in H; [|discriminate].
  destruct (rain_by_time rdr now) as [matrix|]; cbn [rbind] in H; [|discriminate].
  exists g, matrix. split; [trivial|]. split; [trivial|].
  destruct (truthy matrix).
  - left. split; [trivial|]. bind_inv H. injection H as <- <-. eauto.
  - right. injection H as <- <-. auto.
Qed.

Lemma iteration_inv (weight : weight_fn) (self : Experiment) (time graph_ref : loc)
    (start start' : node) (er er' : gmap edge Z) (h h' : Heap) :
  iteration weight self time graph_ref start er h = Ok (start', er', h') ->
  exists now rains h1 g sp first gr sub,
    agoras h !! time = Some now
    /\ planning (radar self) weight graph_ref now (get_flooding_points now) h
       = Ok (rains, h1)
    /\ graphs h1 !! graph_ref = Some g
    /\ astar_path g start (destination self) by_weight = Ok sp
    /\ list_getitem sp 0 = Ok first
    /\ load_grafo h' (grafo self) = Ok gr
    /\ oracle gr sp first 600 = Ok (start', sub)
    /\ record_rains rains sub er = Ok er'
    /\ h' = set_agoras h1 (<[time := step now 600]> (agoras h1)).
Proof.
  unfold iteration, load. intros H.
  destruct (agoras h !! time) as [now|]; cbn [getitem rbind] in H; [|discriminate].
  destruct (planning _ _ _ _ _ _) as [[rains h1]|] eqn:Hp; cbn [rbind] in H;
    [|discriminate].
  destruct (graphs h1 !! graph_ref) as [g|] eqn:Hg; cbn [getitem rbind] in H;
    [|discriminate].
  destruct (astar_path _ _ _ _) as [sp|] eqn:Hsp; cbn [rbind] in H; [|discriminate].
  destruct (list_getitem sp 0) as [first|] eqn:Hfirst; cbn [rbind] in H;
    [|discriminate].
  destruct (load_grafo _ _) as [gr|] eqn:Hgr; cbn [rbind] in H; [|discriminate].
  destruct (oracle _ _ _ _) as [[s1 sub]|] eqn:Ho; cbn [rbind] in H; [|discriminate].
  destruct (record_rains _ _ _) as [er1|] eqn:Hr; cbn [rbind] in H; [|discriminate].
  injection H as <- <- <-.
  exists now, rains, h1, g, sp, first, gr, sub. repeat split; trivial.
Qed.

(** What [for e in subpath: edge_rains[e] = rains[e]] leaves in the
    record. *)
Lemma record_rains_lookup (rains : gmap edge Z) :
  forall sub er er',
    record_rains rains sub er = Ok er' ->
    forall e,
      er' !! e = (if decide (e ∈ sub) then rains !! e else er !! e)
      /\ (e ∈ sub -> is_Some (rains !! e)).
Proof.
  induction sub as [|e0 sub IH]; intros er er' H e; cbn [record_rains] in H.
  - injection H as <-. rewrite decide_False by apply not_elem_of_nil.
    split; [trivial|]. intros Hin. now apply elem_of_nil in Hin.
  - destruct (rains !! e0) as [v|] eqn:Hv; cbn [getitem rbind] in H; [|discriminate].
    destruct (IH _ _ H e) as [Hl Hs]. split.
    + rewrite Hl. destruct (decide (e ∈ sub)) as [Hin|Hnin].
      * rewrite decide_True by (apply elem_of_cons; auto). trivial.
      * destruct (decide (e = e0)) as [->|Hne].
        -- rewrite decide_True by (apply elem_of_cons; auto).
           rewrite lookup_insert_eq. now rewrite Hv.
        -- rewrite decide_False.
           ++ now apply lookup_insert_ne.
           ++ intros Hc. apply elem_of_cons in Hc. destruct Hc; [congruence|contradiction].
    + intros Hin. apply elem_of_cons in Hin. destruct Hin as [->|Hin]; [|auto].
      rewrite Hv. eauto.
Qed.


(** Every edge the oracle returns is an edge of the graph. *)
Lemma oracle_crossed_in_graph (gr : Grafo) (path : list node) (s : node) (tyme : Q)
    (r : node) (crossed : list edge) :
  oracle gr path s tyme = Ok (r, crossed) ->
  forall e, e ∈ crossed -> In e (edge_keys (graph gr)).
Proof.
  intros H e He. destruct (decide (s ∈ path)) as [Hin|Hnin].
  - destruct (first_index_exists _ _ Hin) as (k & Hk).
    rewrite (oracle_walk _ _ _ k) in H by exact Hk.
    destruct (walk_trace _ _ _ _ _ _ _ H) as (new & -> & _ & Hpairs & _).
    cbn [app] in He. apply list_elem_of_lookup_1 in He. destruct He as [i Hi].
    destruct (Hpairs i e Hi) as (u & v & _ & _ & Hf).
    eapply find_edge_in; eauto.
  - rewrite oracle_start_missing in H by trivial. injection H as <- <-.
    now apply elem_of_nil in He.
Qed.

Lemma same_network_keys (g g' : MultiDiGraph) :
  same_network g g' -> edge_keys g = edge_keys g'.
Proof.
  intros [_ H]. unfold edge_keys.
  assert (E : forall l : list (edge * EdgeData),
            map fst l = map (fun x => x.1.1) (map unweighted l)).
  { intros l. rewrite map_map. apply map_ext. intros [k d]. reflexivity. }
  now rewrite !E, H.
Qed.

(** An invariant of the passes of the main loop holds when the loop
    returns. *)
Lemma experiment_loop_invariant (weight : weight_fn) (self time graph_ref : loc)
    (I : node -> gmap edge Z -> Heap -> Prop) :
  (forall ex start er h start' er' h',
     experiments h !! self = Some ex ->
     I start er h ->
     iteration weight ex time graph_ref start er h = Ok (start', er', h') ->
     I start' er' h') ->
  forall fuel start er h er' h',
    I start er h ->
    experiment_loop fuel weight self time graph_ref start er h = Some (Ok (er', h')) ->
    exists ex final,
      experiments h' !! self = Some ex /\ final = destination ex /\ I final er' h'.
Proof.
  intros Hstep. induction fuel as [|fuel IH]; intros start er h er' h' HI;
    cbn [experiment_loop]; [discriminate|].
  unfold load. destruct (experiments h !! self) as [ex|] eqn:Hex; cbn [getitem];
    [|discriminate].
  destruct (start =? destination ex) eqn:Hd.
  - intros [= <- <-]. apply Z.eqb_eq in Hd. exists ex, start. auto.
  - destruct (iteration _ _ _ _ _ _ _) as [[[s1 er1] h1]|] eqn:Hit; [|discriminate].
    intros Hloop. eapply IH; [|exact Hloop]. eapply Hstep; eauto.
Qed.

Lemma crop_in_place_inv (self : loc) (u v : node) (h h2 : Heap) (r : loc) :
  crop_in_place self u v h = Ok (r, h2) ->
  exists o gr gr',
    grafos h !! self = Some o
    /\ load_grafo h self = Ok gr
    /\ crop gr u v = Ok gr'
    /\ r = length (graphs h)
    /\ agoras h2 = agoras h /\ experiments h2 = experiments h
    /\ graphs h2 = graphs h ++ [graph gr']
    /\ grafos h2 = <[self := mkGrafoObj (o_lat0 o) (o_latoo o) (o_lon0 o)
                              (o_lonoo o) (length (graphs h))]> (grafos h).
Proof.
  unfold crop_in_place, load. intros H.
  destruct (grafos h !! self) as [o|] eqn:Ho; cbn [getitem rbind] in H;
    [|discriminate].
  destruct (load_grafo h self) as [gr|] eqn:Hgr; cbn [rbind] in H; [|discriminate].
  destruct (crop gr u v) as [gr'|] eqn:Hc; cbn [rbind] in H; [|discriminate].
  injection H as <- <-. exists o, gr, gr'. repeat split; trivial.
Qed.

(** X16. A run whose origin is its destination makes no pass of the
    loop, whatever the fuel: after the crop it returns the empty record
    (or raises what the crop raises), with no clock stepped and no weight
    written. *)
Theorem experiment_same_place (fuel : nat) (weight : weight_fn) (self : loc)
    (h : Heap) (ex : Experiment) (a : Agora) :
  experiments h !! self = Some ex ->
  agoras h !! agora ex = Some a ->
  origin ex = destination ex ->
  experiment (S fuel) weight self h
  = match crop_in_place (grafo ex) (origin ex) (destination ex)
            (set_agoras h (agoras h ++ [a])) with
    | Ok (_, h2) => Some (Ok (∅, h2))
    | Raise e => Some (Raise e)
    end.
Proof.
  intros Hex Ha Hod. unfold experiment, load. rewrite Hex. cbn [getitem].
  rewrite Ha. cbn [getitem].
  destruct (crop_in_place _ _ _ _) as [[r h2]|] eqn:Hc; [|reflexivity].
  apply crop_in_place_inv in Hc.
  destruct Hc as (o & gr & gr' & _ & _ & _ & _ & _ & He & _).
  cbn [experiment_loop]. unfold load. rewrite He. cbn [set_agoras experiments].
  rewrite Hex. cbn [getitem]. rewrite Hod, Z.eqb_refl. reflexivity.
Qed.

Lemma experiment_record_keys (fuel : nat) (weight : weight_fn) (self : loc)
    (h h' : Heap) (edge_rains : gmap edge Z) :
  experiment fuel weight self h = Some (Ok (edge_rains, h')) ->
  exists ex o g,
    experiments h' !! self = Some ex
    /\ grafos h' !! grafo ex = Some o
    /\ graphs h' !! o_graph o = Some g
    /\ forall e, is_Some (edge_rains !! e) -> In e (edge_keys g).
Proof.
  unfold experiment, load.
  destruct (experiments h !! self) as [ex|] eqn:Hex; cbn [getitem]; [|discriminate].
  destruct (agoras h !! agora ex) as [a|] eqn:Ha; cbn [getitem]; [|discriminate].
  destruct (crop_in_place _ _ _ _) as [[graph_ref h2]|] eqn:Hc; [|discriminate].
  apply crop_in_place_inv in Hc.
  destruct Hc as (o & gr & gr' & Ho & _ & _ & -> & _ & He2 & Hg2 & Hf2).
  cbn [set_agoras experiments graphs grafos] in *.
  set (ref := length (graphs h)) in *.
  set (o' := mkGrafoObj (o_lat0 o) (o_latoo o) (o_lon0 o) (o_lonoo o) ref) in *.
  intros Hloop.
  pose (I := fun (_ : node) (er : gmap edge Z) (hh : Heap) =>
    experiments hh !! self = Some ex
    /\ grafos hh !! grafo ex = Some o'
    /\ exists g, graphs hh !! ref = Some g
                 /\ forall e, is_Some (er !! e) -> In e (edge_keys g)).
  destruct (experiment_loop_invariant weight self (length (agoras h)) ref I)
    with (fuel := fuel) (start := origin ex) (er := (∅ : gmap edge Z))
         (h := h2) (er' := edge_rains) (h' := h')
    as (ex' & final & Hex' & _ & HI); trivial.
  - intros ex0 start er hh s' er' hh' Hex0 (HIe & HIf & g & HIg & HIk) Hit.
    rewrite HIe in Hex0. injection Hex0 as <-.
    pose proof (iteration_frame _ _ _ _ _ _ _ _ _ _ Hit) as (FE & FF & _ & _ & FS).
    destruct (FS g HIg) as (g1 & Hg1 & Hsame).
    apply iteration_inv in Hit.
    destruct Hit as (now & rains & h1 & g0 & sp & first & gr0 & sub
                     & _ & _ & _ & _ & _ & Hgr0 & Hor & Hr & _).
    split; [now rewrite FE|]. split; [now rewrite FF|].
    exists g1. split; [trivial|]. intros e He.
    destruct (record_rains_lookup _ _ _ _ Hr e) as [Hl _]. rewrite Hl in He.
    destruct (decide (e ∈ sub)) as [Hin|Hnin].
    + pose proof (oracle_crossed_in_graph _ _ _ _ _ _ Hor e Hin) as Hk.
      unfold load_grafo, load in Hgr0. rewrite FF, HIf in Hgr0.
      cbn [getitem rbind o_graph o'] in Hgr0. rewrite Hg1 in Hgr0.
      cbn [getitem rbind] in Hgr0. injection Hgr0 as <-. exact Hk.
    + rewrite (same_network_keys _ _ Hsame). auto.
  - unfold I. rewrite He2, Hf2, Hg2. split; [trivial|]. split.
    + apply list_lookup_insert_eq. eapply lookup_lt_Some; eauto.
    + exists (graph gr'). split; [apply list_lookup_middle; reflexivity|].
      intros e He. rewrite lookup_empty in He. destruct He as [x Hx]. discriminate.
  - destruct HI as (HIe & HIf & g & HIg & HIk).
    exists ex, o', g. cbn [o_graph o']. auto.
Qed.

(** X17. When a run returns, every key of the record it returns is an
    edge of the graph the experiment's network refers to at that
    moment. *)
Theorem experiment_keys_in_network (fuel : nat) (weight : weight_fn) (self : loc)
    (h h' : Heap) (edge_rains : gmap edge Z) :
  experiment fuel weight self h = Some (Ok (edge_rains, h')) ->
  exists ex o g,
    experiments h' !! self = Some ex
    /\ grafos h' !! grafo ex = Some o
    /\ graphs h' !! o_graph o = Some g
    /\ forall e, is_Some (edge_rains !! e) -> In e (edge_keys g).
Proof. apply experiment_record_keys. Qed.

(** X18. When no radar file exists for any timestamp, every rainfall in
    the record a run returns is 0. *)
Theorem experiment_dry (fuel : nat) (weight : weight_fn) (self : loc)
    (h h' : Heap) (edge_rains : gmap edge Z) :
  (forall key, radar_file key = Ok None) ->
  experiment fuel weight self h = Some (Ok (edge_rains, h')) ->
  forall e v, edge_rains !! e = Some v -> v = 0.
Proof.
  intros Hdry. unfold experiment, load.
  destruct (experiments h !! self) as [ex|]; cbn [getitem]; [|discriminate].
  destruct (agoras h !! agora ex) as [a|]; cbn [getitem]; [|discriminate].
  destruct (crop_in_place _ _ _ _) as [[graph_ref h2]|]; [|discriminate].
  intros Hloop.
  pose (I := fun (_ : node) (er : gmap edge Z) (_ : Heap) =>
    forall e v, er !! e = Some v -> v = 0).
  destruct (experiment_loop_invariant weight self (length (agoras h)) graph_ref I)
    with (fuel := fuel) (start := origin ex) (er := (∅ : gmap edge Z))
         (h := h2) (er' := edge_rains) (h' := h')
    as (ex' & final & _ & _ & HI); trivial.
  - intros ex0 start er hh s' er' hh' _ HI Hit. apply iteration_inv in Hit.
    destruct Hit as (now & rains & h1 & g0 & sp & first & gr0 & sub
                     & _ & Hp & _ & _ & _ & _ & _ & Hr & _).
    apply planning_inv in Hp.
    destruct Hp as (g & matrix & _ & Hm & [[Ht _]|(_ & -> & _)]).
    { unfold rain_by_time in Hm. rewrite Hdry in Hm. cbn [rbind] in Hm.
      injection Hm as <-. discriminate. }
    intros e v He. destruct (record_rains_lookup _ _ _ _ Hr e) as [Hl _].
    rewrite Hl in He. destruct (decide (e ∈ sub)); [|eauto].
    rewrite dict_of_comprehension in He.
    destruct (decide (e ∈ edge_keys g)); [|discriminate]. now injection He as <-.
  - intros e v He. rewrite lookup_empty in He. discriminate.
Qed.

(** X19. When a run returns, the clock the loop worked on (the copy made
    at the start) is the initial time advanced by a whole number of
    horizons of 600 seconds, in the same year and month; the day is
    whatever that sum gives, past the end of the month if need be. *)
Theorem experiment_clock (fuel : nat) (weight : weight_fn) (self : loc)
    (h h' : Heap) (edge_rains : gmap edge Z) :
  experiment fuel weight self h = Some (Ok (edge_rains, h')) ->
  exists ex a t k,
    experiments h !! self = Some ex
    /\ agoras h !! agora ex = Some a
    /\ agoras h' !! length (agoras h) = Some t
    /\ 0 <= k
    /\ seconds_of t = seconds_of a + 600 * k
    /\ year t = year a /\ month t = month a.
Proof.
  unfold experiment, load.
  destruct (experiments h !! self) as [ex|] eqn:Hex; cbn [getitem]; [|discriminate].
  destruct (agoras h !! agora ex) as [a|] eqn:Ha; cbn [getitem]; [|discriminate].
  destruct (crop_in_place _ _ _ _) as [[graph_ref h2]|] eqn:Hc; [|discriminate].
  apply crop_in_place_inv in Hc.
  destruct Hc as (o & gr & gr' & _ & _ & _ & _ & Ha2 & _).
  cbn [set_agoras agoras] in Ha2.
  intros Hloop.
  pose (I := fun (_ : node) (_ : gmap edge Z) (hh : Heap) =>
    exists t k, agoras hh !! length (agoras h) = Some t /\ 0 <= k
                /\ seconds_of t = seconds_of a + 600 * k
                /\ year t = year a /\ month t = month a).
  destruct (experiment_loop_invariant weight self (length (agoras h)) graph_ref I)
    with (fuel := fuel) (start := origin ex) (er := (∅ : gmap edge Z))
         (h := h2) (er' := edge_rains) (h' := h')
    as (ex' & final & _ & _ & (t & k & Ht & Hk & Hs & Hy & Hm)); trivial.
  - intros ex0 start er hh s' er' hh' _ (t & k & Ht & Hk & Hs & Hy & Hm) Hit.
    apply iteration_inv in Hit.
    destruct Hit as (now & rains & h1 & g0 & sp & first & gr0 & sub
                     & Hnow & Hp & _ & _ & _ & _ & _ & _ & ->).
    apply (planning_frame _ _ (length (agoras h))) in Hp. destruct Hp as [_ Hag].
    assert (Et : Some t = Some now) by (rewrite <- Ht; exact Hnow).
    injection Et as <-.
    exists (step t 600), (k + 1). cbn [set_agoras agoras]. rewrite Hag.
    split; [apply list_lookup_insert_eq; eapply lookup_lt_Some; eauto|].
    destruct (step_seconds t 600) as (_ & Hs' & Hy' & Hm').
    repeat split; try lia; congruence.
  - exists a, 0. rewrite Ha2. split; [apply list_lookup_middle; reflexivity|].
    repeat split; lia.
  - exists ex, a, t, k. auto 10.
Qed.


(** ** The summary of a record *)

Lemma rmap_returns {A B} (f : A -> result B) (l : list A) :
  (forall a, In a l -> exists b, f a = Ok b) -> exists l', rmap f l = Ok l'.
Proof.
  induction l as [|a l IH]; intros H; cbn [rmap]; [eauto|].
  destruct (H a (or_introl eq_refl)) as [b ->]. cbn [rbind].
  destruct IH as [l' ->]; [intros x Hx; apply H; right; trivial|].
  cbn [rbind]. eauto.
Qed.







(* ---- end of section theorems ---- *)
End Routing.

(* ================================================================== *)
(** * Part III: the specification on concrete networks *)
(* ================================================================== *)


(** ** The floats of the model against IEEE 754 binary64 *)

(** On these pairs of doubles the four operations of the model give what
    the operations of the Standard Library's specification of binary64
    give. *)
Example float_operations_agree :
  forallb (fun ab : spec_float * spec_float =>
             let (a, b) := ab in
             Qeq_bool (fadd (SF2Q a) (SF2Q b)) (SF2Q (SFadd 53 1024 a b))
             && Qeq_bool (fsub (SF2Q a) (SF2Q b)) (SF2Q (SFsub 53 1024 a b))
             && Qeq_bool (fmul (SF2Q a) (SF2Q b)) (SF2Q (SFmul 53 1024 a b))
             && Qeq_bool (fdiv (SF2Q a) (SF2Q b)) (SF2Q (SFdiv 53 1024 a b))
             && Qeq_bool (float_round (SF2Q a)) (SF2Q a))
          [(binary64 600 1, binary64 2019 10); (binary64 3981 10, binary64 2953 10);
           (binary64 28 10, binary64 7 10); (binary64 1 10, binary64 3 10);
           (binary64 1 3, binary64 (-7) 11); (binary64 (-55) 10, binary64 (10 ^ 10) 1);
           (binary64 1 (10 ^ 320), binary64 3 (10 ^ 321));
           (binary64 123456789123 1000, binary64 1 1000000);
           (binary64 (-46633) 1000, binary64 (-23550) 1000)]
  = true.
Proof. vm_compute. reflexivity. Qed.

(** The literals of the examples are the doubles Python reads. *)
Example float_literals :
  SF2Q (binary64 1 10) = float_round (1 # 10)
  /\ SF2Q (binary64 5999 10) = float_round (5999 # 10)
  /\ SF2Q (binary64 28 10) = float_round (28 # 10).
Proof. vm_compute. repeat split. Qed.

(** ** The stand-in truncation *)

Lemma osmnx_truncate_removes (g : MultiDiGraph) (north south east west : Q)
    (g' : MultiDiGraph) :
  osmnx_truncate g north south east west = Ok g' -> subgraph g' g.
Proof.
  unfold osmnx_truncate. destruct (_ || _); [discriminate|].
  destruct (largest _) as [|n best]; [discriminate|].
  intros [= <-]. split; cbn [nodes edges].
  - etransitivity; apply map_filter_subseteq.
  - intros ed Hed. apply filter_In in Hed. destruct Hed as [Hed _].
    apply filter_In in Hed. tauto.
Qed.

(** The crop from A to C keeps A, B and C and removes D, and a second
    crop changes nothing more. *)
Example crop_abcd :
  match crop line_astar osmnx_truncate abcd 1 3 with
  | Ok self1 =>
      nodes (graph self1) !! 3 = Some (nd (5 # 2) (1 # 2))
      /\ nodes (graph self1) !! 4 = None
      /\ edge_keys (graph self1) = [(1, 2, 0); (2, 3, 0)]
      /\ crop line_astar osmnx_truncate self1 1 3 = Ok self1
  | Raise _ => False
  end.
Proof. vm_compute. repeat split. Qed.

(** C9 (the code at the failing input). In [islands] the street from 1
    to 2 is the path from 1 to 2, and three other streets lie within the
    box the crop derives from it, linked to it only by way of node 6,
    outside the box.  The truncation keeps the larger group: the crop
    removes nodes 1 and 2 and the street between them, and a run from 1
    to 2 then fails to plan its first path. *)
Theorem crop_drops_path :
  line_astar (graph islands) 1 2 by_travel_time = Ok [1; 2]
  /\ (exists self',
        crop line_astar osmnx_truncate islands 1 2 = Ok self'
        /\ nodes (graph self') !! 1 = None
        /\ nodes (graph self') !! 2 = None
        /\ edge_keys (graph self') = [(3, 4, 0); (4, 5, 0)]
        /\ ~ keeps_path line_astar islands self' 1 2)
  /\ experiment swap_convert flood_rows one_radar_file decimal line_astar
       osmnx_truncate 3 rain_weight 0%nat (islands_store noon)
     = Some (Raise NodeNotFound).
Proof.
  split; [reflexivity|]. split.
  - assert (Hok : is_ok (crop line_astar osmnx_truncate islands 1 2) = true)
      by (vm_compute; reflexivity).
    destruct (crop line_astar osmnx_truncate islands 1 2) as [self'|] eqn:E;
      [|discriminate Hok].
    vm_compute in E. injection E as <-.
    exists (mkGrafo 0 10 0 10
              (mkGraph (list_to_map [(3, nd (7 # 2) (11 # 2));
                                     (4, nd (9 # 2) (11 # 2));
                                     (5, nd (11 # 2) (7 # 2))])
                       [((3, 4, 0), ed 60); ((4, 5, 0), ed 60)])).
    split; [vm_compute; reflexivity|].
    split; [reflexivity|]. split; [reflexivity|]. split; [reflexivity|].
    intros (path & Hp & Hnodes & _). injection Hp as <-.
    destruct (Hnodes 1 (or_introl eq_refl)) as (d & _ & Hd). discriminate Hd.
  - vm_compute. reflexivity.
Qed.

(** ** Flood classifier on a concrete edge *)

Lemma is_flooded_spec_witness :
  exists tf,
    is_flooded grid_meters abc_graph (1, 2, 0) [pt (1 # 2) (501 # 1000)] = Ok tf
    /\ tf = true
    /\ is_flooded grid_meters abc_graph (1, 2, 0) [pt 5 5; pt (1 # 2) (501 # 1000)]
       = is_flooded grid_meters abc_graph (1, 2, 0) [pt (1 # 2) (501 # 1000); pt 5 5].
Proof.
  destruct (is_flooded_spec grid_meters abc_graph (1, 2, 0)
              [pt (1 # 2) (501 # 1000); pt 5 5]
              (ed 300) (nd (1 # 2) (1 # 2)) (nd (3 # 2) (3 # 2)))
    as [_ Hperm]; try reflexivity.
  destruct (is_flooded_spec grid_meters abc_graph (1, 2, 0) [pt (1 # 2) (501 # 1000)]
              (ed 300) (nd (1 # 2) (1 # 2)) (nd (3 # 2) (3 # 2)))
    as [(tf & Htf & Hiff) _]; try reflexivity.
  exists tf. split; [exact Htf|]. split.
  - apply Hiff. exists (pt (1 # 2) (1 # 2)), (pt (1 # 2) (501 # 1000)).
    split; [left; reflexivity|].
    split; [left; reflexivity | Qclosed].
  - apply Hperm. apply perm_swap.
Defined.

(** ** Flood points on a concrete spreadsheet *)

(** At 10:00:00 the row that starts at 10:00:00 is left out by the code and
    included by the half-open interval of the specification. *)
Lemma flooding_points_counterexample :
  get_flooding_points swap_convert flood_rows ten_o_clock = [pt 4 3]
  /\ flooding_points_as_specified swap_convert flood_rows ten_o_clock
     = [pt 2 1; pt 4 3].
Proof. split; reflexivity. Qed.

Lemma get_flooding_points_open_interval_witness :
  In (pt 4 3) (get_flooding_points swap_convert flood_rows ten_o_clock)
  /\ flood_row_selected (date_of ten_o_clock) (time_of ten_o_clock)
       (mkFloodRow "2019-03-10" "10:00:00" "11:00:00" 1 2) = false
  /\ flood_row_selected (date_of ten_o_clock) (time_of ten_o_clock)
       (mkFloodRow "2019-03-10" "09:15:00" "10:30:00" 3 4) = true.
Proof.
  destruct (get_flooding_points_open_interval swap_convert flood_rows ten_o_clock)
    as (Hin & _ & Hstart & Htime & _).
  split; [|split].
  - apply Hin. exists (mkFloodRow "2019-03-10" "09:15:00" "10:30:00" 3 4).
    repeat split. right. left. reflexivity.
  - apply Hstart. reflexivity.
  - apply (Htime _ 9 15 0 10 30 0); try reflexivity;
      cbv [time_of_day seconds_of_day ten_o_clock hour minute second DATE];
      try lia.
    split; [reflexivity | lia].
Defined.

(** ** Rainfall on a concrete edge *)

(** The geometry of the edge has one vertex, in a dry cell; its end nodes
    are in a cell with 7 mm.  The code samples the end nodes too. *)
Lemma rain_at_edge_counterexample :
  rain_at_edge one_radar_file decimal unit_radar bent (1, 2, 0) ten_o_clock = Ok 7
  /\ rain_at_edge_as_specified one_radar_file decimal unit_radar bent (1, 2, 0)
       ten_o_clock = Ok 0.
Proof. split; vm_compute; reflexivity. Qed.

Lemma rain_at_edge_max_witness :
  (exists v, rain_at_edge one_radar_file decimal unit_radar bent (1, 2, 0) ten_o_clock
             = Ok v
             /\ In v [0; 7; 7])
  /\ (exists ex, rain_at_edge one_radar_file decimal unit_radar bent (1, 2, 0) noon
                 = Raise ex)
  /\ (exists ex, rain_at_edge one_radar_file decimal unit_radar bent (1, 2, 0)
                   (mkAgora 2019 3 10 11 0 0) = Raise ex)
  /\ rowcol unit_radar (pt (3 # 2) (1 # 2)) = Ok (0, 1).
Proof.
  destruct (rain_at_edge_max one_radar_file decimal unit_radar bent (1, 2, 0)
              ten_o_clock
              (mkEdgeData 60 (Some [pt (1 # 2) (1 # 2)]) None)
              (nd (3 # 2) (1 # 2)) (nd (3 # 2) (1 # 2)))
    as (Hmax & Hcell & _); try reflexivity.
  destruct (rain_at_edge_max one_radar_file decimal unit_radar bent (1, 2, 0) noon
              (mkEdgeData 60 (Some [pt (1 # 2) (1 # 2)]) None)
              (nd (3 # 2) (1 # 2)) (nd (3 # 2) (1 # 2)))
    as (_ & _ & Hnone & _); try reflexivity.
  destruct (rain_at_edge_max one_radar_file decimal unit_radar bent (1, 2, 0)
              (mkAgora 2019 3 10 11 0 0)
              (mkEdgeData 60 (Some [pt (1 # 2) (1 # 2)]) None)
              (nd (3 # 2) (1 # 2)) (nd (3 # 2) (1 # 2)))
    as (_ & _ & _ & Hraise); try reflexivity.
  split; [|split; [|split]].
  - destruct (Hmax [[0; 7; 2]; [0; 3; 1]] [(0, 0); (0, 1); (0, 1)] [0; 7; 7])
      as (v & Hv & Hin & _); try (vm_compute; reflexivity).
    exists v. auto.
  - apply Hnone. vm_compute. reflexivity.
  - apply (Hraise ConnectionError). vm_compute. reflexivity.
  - destruct (Hcell (3 # 2)%Q (1 # 2)%Q) as (Hrc & _);
      [Qclosed | Qclosed |].
    etransitivity; [exact Hrc|]. vm_compute. reflexivity.
Defined.

(** ** A pass of the loop without a radar file *)

Lemma planning_without_grid_witness :
  (exists rains,
     planning one_radar_file decimal unit_radar rain_weight 0%nat noon
       (get_flooding_points swap_convert flood_rows noon) (store_at noon)
     = Ok (rains, store_at noon)
     /\ rains !! (1, 2, 0) = Some 0)
  /\ (exists start' edge_rains' h',
        iteration swap_convert flood_rows one_radar_file decimal line_astar rain_weight
          (mkExperiment 1 3 0%nat 0%nat unit_radar) 0%nat 0%nat 1 ∅ (store_at noon)
        = Ok (start', edge_rains', h')
        /\ graphs h' = graphs (store_at noon)).
Proof.
  destruct (planning_without_grid swap_convert flood_rows one_radar_file decimal
              line_astar rain_weight (mkExperiment 1 3 0%nat 0%nat unit_radar)
              0%nat 0%nat noon abc_graph (store_at noon))
    as [(rains & Hp & Hzero & _) Hit]; try reflexivity.
  split.
  - exists rains. split; [exact Hp|]. apply Hzero.
    apply list_elem_of_In. left. reflexivity.
  - assert (Hok : is_ok (iteration swap_convert flood_rows one_radar_file decimal
                          line_astar rain_weight
                          (mkExperiment 1 3 0%nat 0%nat unit_radar)
                          0%nat 0%nat 1 ∅ (store_at noon)) = true)
      by (vm_compute; reflexivity).
    destruct (iteration _ _ _ _ _ _ _ _ _ _ _ _) as [[[s' er'] h']|] eqn:E;
      [|discriminate Hok].
    exists s', er', h'. split; [reflexivity|].
    apply (Hit _ _ _ _ _ E).
Defined.

(** ** A run from A to C *)

(** One pass, made with the radar file of 10:00: both edges are crossed
    and recorded with 3 mm, the copy of the clock shows 10:10, and the
    cropped graph carries the weights the pass wrote. *)
Example experiment_run :
  match experiment swap_convert flood_rows one_radar_file decimal line_astar
          osmnx_truncate 3 rain_weight 0%nat (store_at ten_o_clock) with
  | Some (Ok (edge_rains, h')) =>
      edge_rains !! (1, 2, 0) = Some 3
      /\ edge_rains !! (2, 3, 0) = Some 3
      /\ agoras h' = [ten_o_clock; mkAgora 2019 3 10 10 10 0]
      /\ grafos h' = [mkGrafoObj 0 10 0 10 1%nat]
      /\ option_map edges (graphs h' !! 0%nat) = Some (edges abc_graph)
      /\ option_map edges (graphs h' !! 1%nat)
         = Some [((1, 2, 0), mkEdgeData 300 None (Some 303%Q));
                 ((2, 3, 0), mkEdgeData 400 None (Some 403%Q))]
  | _ => False
  end.
Proof. vm_compute. repeat split. Qed.


(** ** More instances *)

Lemma samples_need_edge_witness :
  is_flooded grid_meters dangling (1, 2, 0) [pt 0 0] = Raise KeyError
  /\ rain_at_edge one_radar_file decimal unit_radar dangling (1, 2, 0) ten_o_clock
     = Raise KeyError.
Proof.
  destruct (samples_need_edge grid_meters one_radar_file decimal dangling (1, 2, 0))
    as (_ & _ & Hraise).
  destruct Hraise as [Hf Hr].
  - intros (_ & _ & [d Hd]). discriminate.
  - split; [apply Hf | apply Hr].
Defined.

Lemma is_flooded_more_points_witness :
  is_flooded grid_meters abc_graph (1, 2, 0) [pt 5 5; pt (1 # 2) (501 # 1000)]
  = Ok true.
Proof.
  destruct (is_flooded_more_points grid_meters abc_graph (1, 2, 0)
              [pt (1 # 2) (501 # 1000)] [pt 5 5; pt (1 # 2) (501 # 1000)])
    as [_ H].
  - intros q [<-|[]]. right. left. reflexivity.
  - apply H. reflexivity.
Defined.

Lemma rain_at_edge_entry_witness :
  exists v, rain_at_edge one_radar_file decimal unit_radar abc_graph (1, 2, 0)
              ten_o_clock = Ok v
            /\ 0 <= v.
Proof.
  assert (Hok : is_ok (rain_at_edge one_radar_file decimal unit_radar abc_graph
                         (1, 2, 0) ten_o_clock) = true)
    by (vm_compute; reflexivity).
  destruct (rain_at_edge one_radar_file decimal unit_radar abc_graph (1, 2, 0)
              ten_o_clock) as [v|] eqn:E; [|discriminate Hok].
  exists v. split; [reflexivity|].
  destruct (rain_at_edge_entry one_radar_file decimal unit_radar abc_graph (1, 2, 0)
              ten_o_clock v E)
    as (data & line & entry & Hdata & _ & _ & _ & _ & Hpos).
  apply Hpos. injection Hdata as <-.
  intros l x z Hl Hx Hne Hz.
  destruct Hl as [<-|[<-|[]]];
    repeat (destruct Hx as [<-|Hx]; [|]); try destruct Hx;
    try (exfalso; apply Hne; reflexivity);
    vm_compute in Hz; injection Hz as <-; lia.
Defined.

Lemma flood_interval_never_wraps_witness :
  flood_row_selected (date_of (mkAgora 2019 3 10 23 30 0))
    (time_of (mkAgora 2019 3 10 23 30 0))
    (mkFloodRow "2019-03-10" "23:00:00" "01:00:00" 1 2) = false.
Proof.
  apply (flood_interval_never_wraps _ 23 0 0 1 0 0); try reflexivity;
    cbv [time_of_day seconds_of_day hour minute second]; lia.
Defined.

Lemma crop_box_within_bounds_witness :
  exists self1 north south east west,
    crop line_astar osmnx_truncate abcd 1 3 = Ok self1
    /\ lat0 self1 = lat0 abcd
    /\ osmnx_truncate (graph abcd) north south east west = Ok (graph self1)
    /\ (lat0 abcd <= south)%Q /\ (east <= lonoo abcd)%Q.
Proof.
  assert (Hok : is_ok (crop line_astar osmnx_truncate abcd 1 3) = true)
    by (vm_compute; reflexivity).
  destruct (crop line_astar osmnx_truncate abcd 1 3) as [self1|] eqn:E;
    [|discriminate Hok].
  destruct (crop_box_within_bounds line_astar osmnx_truncate abcd self1 1 3 E)
    as ((Hl & _) & path & n & s & e & w & _ & Ht & Hs & _ & _ & He).
  exists self1, n, s, e, w. auto.
Defined.

(** ** More runs *)

(** From A to A the path is the node A, the box of the crop has no area
    and the truncation raises. *)
Lemma experiment_same_place_witness :
  exists e,
    experiment swap_convert flood_rows one_radar_file decimal line_astar
      osmnx_truncate 1 rain_weight 0%nat
      (mkHeap [ten_o_clock] [abc_graph] [mkGrafoObj 0 10 0 10 0%nat]
              [mkExperiment 1 1 0%nat 0%nat unit_radar])
    = Some (Raise e).
Proof.
  rewrite (experiment_same_place swap_convert flood_rows one_radar_file decimal
             line_astar osmnx_truncate 0 rain_weight 0%nat _
             (mkExperiment 1 1 0%nat 0%nat unit_radar) ten_o_clock);
    try reflexivity.
  destruct (crop_in_place _ _ _ _ _ _) as [[r h2]|e] eqn:E; [|eauto].
  assert (Hno : is_ok (Ok (r, h2) : result (loc * Heap)) = false)
    by (rewrite <- E; vm_compute; reflexivity).
  discriminate Hno.
Defined.

Lemma experiment_keys_in_network_witness :
  exists edge_rains h' ex o g,
    experiment swap_convert flood_rows one_radar_file decimal line_astar
      osmnx_truncate 3 rain_weight 0%nat (store_at ten_o_clock)
    = Some (Ok (edge_rains, h'))
    /\ experiments h' !! 0%nat = Some ex
    /\ grafos h' !! grafo ex = Some o
    /\ graphs h' !! o_graph o = Some g
    /\ forall e, is_Some (edge_rains !! e) -> In e (edge_keys g).
Proof.
  assert (Hok : returned (experiment swap_convert flood_rows one_radar_file decimal
                            line_astar osmnx_truncate 3 rain_weight 0%nat
                            (store_at ten_o_clock)) = true)
    by (vm_compute; reflexivity).
  destruct (experiment _ _ _ _ _ _ _ _ _ _) as [[[er h']|]|] eqn:E;
    try discriminate Hok.
  destruct (experiment_keys_in_network swap_convert flood_rows one_radar_file
              decimal line_astar osmnx_truncate 3 rain_weight 0%nat _ _ _ E)
    as (ex & o & g & H1 & H2 & H3 & H4).
  exists er, h', ex, o, g. auto.
Defined.

Lemma experiment_dry_witness :
  exists edge_rains h',
    experiment swap_convert flood_rows (fun _ => Ok None) decimal line_astar
      osmnx_truncate 3 rain_weight 0%nat (store_at ten_o_clock)
    = Some (Ok (edge_rains, h'))
    /\ forall e v, edge_rains !! e = Some v -> v = 0.
Proof.
  assert (Hok : returned (experiment swap_convert flood_rows (fun _ => Ok None)
                            decimal line_astar osmnx_truncate 3 rain_weight 0%nat
                            (store_at ten_o_clock)) = true)
    by (vm_compute; reflexivity).
  destruct (experiment _ _ _ _ _ _ _ _ _ _) as [[[er h']|]|] eqn:E;
    try discriminate Hok.
  exists er, h'. split; [reflexivity|].
  apply (experiment_dry swap_convert flood_rows (fun _ => Ok None) decimal
           line_astar osmnx_truncate 3 rain_weight 0%nat _ _ _
           (fun _ => eq_refl) E).
Defined.

Lemma experiment_clock_witness :
  exists edge_rains h' t k,
    experiment swap_convert flood_rows one_radar_file decimal line_astar
      osmnx_truncate 3 rain_weight 0%nat (store_at ten_o_clock)
    = Some (Ok (edge_rains, h'))
    /\ agoras h' !! 1%nat = Some t
    /\ 0 <= k
    /\ seconds_of t = seconds_of ten_o_clock + 600 * k.
Proof.
  assert (Hok : returned (experiment swap_convert flood_rows one_radar_file decimal
                            line_astar osmnx_truncate 3 rain_weight 0%nat
                            (store_at ten_o_clock)) = true)
    by (vm_compute; reflexivity).
  destruct (experiment _ _ _ _ _ _ _ _ _ _) as [[[er h']|]|] eqn:E;
    try discriminate Hok.
  destruct (experiment_clock swap_convert flood_rows one_radar_file decimal
              line_astar osmnx_truncate 3 rain_weight 0%nat _ _ _ E)
    as (ex & a & t & k & Hex & Ha & Ht & Hk & Hs & _).
  injection Hex as <-. injection Ha as <-.
  exists er, h', t, k. auto.
Defined.


(** ** Summaries *)



(** The summary of the record of the run from A to C: the float 0.2 (km),
    700 s and 3 mm times 700 s. *)
Example analysis_run :
  analysis (fun _ _ => 100%Q) abc (<[(1, 2, 0) := 3]> (<[(2, 3, 0) := 3]> ∅))
  = Ok (float_round (1 # 5), 700%Q, 2100%Q).
Proof. vm_compute. reflexivity. Qed.

(** ** Looking an edge up by its end nodes *)

Lemma find_edge_by_nodes_first_witness :
  find_edge_by_nodes two_way 1 2 = Some (1, 2, 0)
  /\ find_edge_by_nodes two_way 2 1 = Some (2, 1, 0).
Proof.
  split.
  - apply (proj2 (find_edge_by_nodes_first two_way 1 2 (1, 2, 0))). left.
    exists [(2, 1, 0)], [(1, 2, 1)]. split; [reflexivity|].
    split; [split; reflexivity|].
    constructor; [|constructor]. intros [H _]. discriminate H.
  - apply (proj2 (find_edge_by_nodes_first two_way 2 1 (2, 1, 0))). left.
    exists [], [(1, 2, 0); (1, 2, 1)]. split; [reflexivity|].
    split; [split; reflexivity|]. constructor.
Defined.

Lemma find_edge_by_nodes_none_witness :
  find_edge_by_nodes abc 1 3 = None /\ find_edge_by_nodes abc 3 1 = None.
Proof.
  assert (H : find_edge_by_nodes abc 1 3 = None).
  { apply (proj1 (find_edge_by_nodes_none abc 1 3)).
    constructor; [|constructor; [|constructor]].
    - split; intros [H1 H2]; discriminate.
    - split; intros [H1 H2]; discriminate. }
  split; [exact H|].
  apply (proj2 (find_edge_by_nodes_none abc 1 3)). exact H.
Defined.
